(** * ComfyUI-stable-wildcards: the splitter and the wildcard resolver

    A shallow embedding of [swnodes/StableWildcard.py] and
    [swnodes/SpotlessTextSplitByDelimiter.py], with the Python built-ins
    they call ([str.split], [str.strip], [str.replace], slicing, list
    indexing, [re.search] for the one fixed pattern, the [unicode_escape]
    codec, [dict] objects on a heap), followed by the properties of the
    two nodes. *)

From Stdlib Require Import ZArith NArith List Ascii String Lia.
From stdpp Require Import base numbers option list strings gmap fin_maps.

#[local] Set Warnings "-register-all".

(** ** Python values *)

(** A Python [str] is a sequence of Unicode code points. *)
Abbreviation str := (list N).

(** A literal: the code points of an ASCII string. *)
Definition py (s : string) : str :=
  map N_of_ascii (list_ascii_of_string s).

Inductive exn :=
| TypeError (msg : string)
| ValueError (msg : string)
| IndexError (msg : string)
| KeyError (msg : string)
| UnicodeDecodeError (msg : string)
| UnicodeEncodeError (msg : string).

(** The outcome of a call: a value, or a raised exception. *)
Inductive res (A : Type) :=
| Ok (a : A)
| Raise (e : exn).
Arguments Ok {A} a.
Arguments Raise {A} e.

(** Dictionaries are mutable objects: a value holds a reference to one. *)
Abbreviation loc := positive.

(** The objects the nodes can be handed: [None], [bool], [int], [str],
    [list] and (references to) [dict]. *)
Inductive val :=
| VNone
| VBool (b : bool)
| VInt (z : Z)
| VStr (s : str)
| VList (l : list val)
| VDict (l : loc).

(** [type(v).__name__] *)
Definition type_name (v : val) : string :=
  match v with
  | VNone => "NoneType"
  | VBool _ => "bool"
  | VInt _ => "int"
  | VStr _ => "str"
  | VList _ => "list"
  | VDict _ => "dict"
  end.

Definition is_none (v : val) : bool :=
  match v with VNone => true | _ => false end.

(** [isinstance(v, str)] *)
Definition isinstance_str (v : val) : bool :=
  match v with VStr _ => true | _ => false end.

(** [isinstance(v, int)]: [bool] is a subclass of [int]. *)
Definition isinstance_int (v : val) : bool :=
  match v with VInt _ | VBool _ => true | _ => false end.

(** [isinstance(v, dict)] *)
Definition isinstance_dict (v : val) : bool :=
  match v with VDict _ => true | _ => false end.

(** [int(v)] for an instance of [int]. *)
Definition int_of (v : val) : Z :=
  match v with
  | VInt z => z
  | VBool b => Z.b2z b
  | _ => 0
  end.

(** The text of a [str] object. *)
Definition str_of (v : val) : str :=
  match v with VStr s => s | _ => [] end.

(** ** Sequences: slicing and indexing *)

(** One bound of [PySlice_AdjustIndices]. *)
Definition adjust_bound (len step i : Z) : Z :=
  if (i <? 0)%Z then
    if (i + len <? 0)%Z then (if (step <? 0)%Z then -1 else 0)%Z
    else (i + len)%Z
  else if (len <=? i)%Z then (if (step <? 0)%Z then len - 1 else len)%Z
  else i.

(** The number of items of a slice, from its adjusted bounds. *)
Definition slice_length (start stop step : Z) : Z :=
  if (step <? 0)%Z then
    if (stop <? start)%Z then ((start - stop - 1) / (- step) + 1)%Z else 0%Z
  else
    if (start <? stop)%Z then ((stop - start - 1) / step + 1)%Z else 0%Z.

Definition item_at {A} (l : list A) (i : Z) : option A :=
  if (i <? 0)%Z then None else l !! Z.to_nat i.

(** [n] items of [l], from index [cur], [step] apart. *)
Fixpoint stride_items {A} (l : list A) (cur step : Z) (n : nat) : list A :=
  match n with
  | O => []
  | S n' =>
      match item_at l cur with
      | Some x => x :: stride_items l (cur + step) step n'
      | None => stride_items l (cur + step) step n'
      end
  end.

(** [l[start:stop:step]] *)
Definition getslice {A} (l : list A) (start stop step : Z) : res (list A) :=
  if (step =? 0)%Z then Raise (ValueError "slice step cannot be zero")
  else
    let len := Z.of_nat (length l) in
    let start' := adjust_bound len step start in
    let stop' := adjust_bound len step stop in
    Ok (stride_items l start' step (Z.to_nat (slice_length start' stop' step))).

(** [l[i]] *)
Definition getitem {A} (l : list A) (i : Z) : res A :=
  let len := Z.of_nat (length l) in
  let j := if (i <? 0)%Z then (i + len)%Z else i in
  match item_at l j with
  | Some x => Ok x
  | None => Raise (IndexError "list index out of range")
  end.

(** ** Strings: split, strip, replace *)

Fixpoint is_prefix (p s : str) : bool :=
  match p, s with
  | [], _ => true
  | _ :: _, [] => false
  | a :: p', b :: s' => (a =? b)%N && is_prefix p' s'
  end.

Definition cons_head (c : N) (segs : list str) : list str :=
  match segs with
  | seg :: rest => (c :: seg) :: rest
  | [] => [[c]]
  end.

(** The segments of [s] between the occurrences of a non-empty [sep],
    found from the left without overlap; [skip] counts the characters of
    an occurrence still to pass over. *)
Fixpoint split_go (sep : str) (skip : nat) (s : str) : list str :=
  match s with
  | [] => [[]]
  | c :: s' =>
      match skip with
      | S k => split_go sep k s'
      | O =>
          if is_prefix sep s then [] :: split_go sep (length sep - 1) s'
          else cons_head c (split_go sep 0 s')
      end
  end.

(** [s.split(sep)] *)
Definition str_split (s sep : str) : res (list str) :=
  match sep with
  | [] => Raise (ValueError "empty separator")
  | _ :: _ => Ok (split_go sep 0 s)
  end.

(** [sep.join(segs)] *)
Fixpoint join (sep : str) (segs : list str) : str :=
  match segs with
  | [] => []
  | [seg] => seg
  | seg :: rest => seg ++ sep ++ join sep rest
  end.

(** [c.isspace()], as [str.strip] tests it. *)
Definition is_space (c : N) : bool :=
  ((9 <=? c) && (c <=? 13) || (28 <=? c) && (c <=? 32)
   || (c =? 133) || (c =? 160) || (c =? 5760)
   || (8192 <=? c) && (c <=? 8202)
   || (c =? 8232) || (c =? 8233) || (c =? 8239) || (c =? 8287)
   || (c =? 12288))%N.

Fixpoint lstrip (s : str) : str :=
  match s with
  | c :: s' => if is_space c then lstrip s' else s
  | [] => []
  end.

Definition rstrip (s : str) : str := rev (lstrip (rev s)).

(** [s.strip()] *)
Definition strip (s : str) : str := rstrip (lstrip s).

(** [s.replace(old, new, 1)] *)
Fixpoint replace_once (s old new : str) : str :=
  if is_prefix old s then new ++ drop (length old) s
  else
    match s with
    | [] => []
    | c :: s' => c :: replace_once s' old new
    end.

(** ** The unicode_escape codec

    [codecs.decode(s, 'unicode_escape')] on a [str]: the text is first
    encoded as UTF-8, then the bytes are decoded, a byte that is not part
    of an escape standing for the code point of the same number. *)

(** The UTF-8 bytes of a code point; a surrogate has none, and no [str]
    holds a number beyond 0x10FFFF. *)
Definition utf8_encode_char (c : N) : res (list N) :=
  if (c <? 128)%N then Ok [c]
  else if (c <? 2048)%N then
    Ok [N.lor 192 (N.shiftr c 6); N.lor 128 (N.land c 63)]
  else if (c <? 65536)%N then
    if ((55296 <=? c) && (c <=? 57343))%N then
      Raise (UnicodeEncodeError "surrogates not allowed")
    else
      Ok [N.lor 224 (N.shiftr c 12);
          N.lor 128 (N.land (N.shiftr c 6) 63);
          N.lor 128 (N.land c 63)]
  else if (c <? 1114112)%N then
    Ok [N.lor 240 (N.shiftr c 18);
        N.lor 128 (N.land (N.shiftr c 12) 63);
        N.lor 128 (N.land (N.shiftr c 6) 63);
        N.lor 128 (N.land c 63)]
  else Raise (UnicodeEncodeError "not a code point").

Fixpoint utf8_encode (s : str) : res (list N) :=
  match s with
  | [] => Ok []
  | c :: s' =>
      match utf8_encode_char c with
      | Raise e => Raise e
      | Ok bs =>
          match utf8_encode s' with
          | Raise e => Raise e
          | Ok rest => Ok (bs ++ rest)
          end
      end
  end.

Definition backslash : N := 92.

Definition is_octal (c : N) : bool := ((48 <=? c) && (c <=? 55))%N.

Definition hex_digit (c : N) : option N :=
  if ((48 <=? c) && (c <=? 57))%N then Some (c - 48)%N
  else if ((97 <=? c) && (c <=? 102))%N then Some (c - 87)%N
  else if ((65 <=? c) && (c <=? 70))%N then Some (c - 55)%N
  else None.

(** The value of exactly [count] hexadecimal digits at the start of [s]. *)
Fixpoint hex_escape (count : nat) (ch : N) (s : list N) : option N :=
  match count with
  | O => Some ch
  | S k =>
      match s with
      | [] => None
      | c :: s' =>
          match hex_digit c with
          | Some d => hex_escape k (N.shiftl ch 4 + d)%N s'
          | None => None
          end
      end
  end.

(** The value and the number of digits of an octal escape whose first
    digit is [c]: up to two more octal digits are taken. *)
Definition octal_escape (c : N) (s : list N) : N * nat :=
  let ch := (c - 48)%N in
  match s with
  | c1 :: s1 =>
      if is_octal c1 then
        let ch := (N.shiftl ch 3 + c1 - 48)%N in
        match s1 with
        | c2 :: _ =>
            if is_octal c2 then ((N.shiftl ch 3 + c2 - 48)%N, 3)
            else (ch, 2)
        | [] => (ch, 2)
        end
      else (ch, 1)
  | [] => (ch, 1)
  end.

(** The characters before the first closing brace. *)
Fixpoint name_until_brace (s : list N) : option (list N) :=
  match s with
  | [] => None
  | c :: s' =>
      if (c =? 125)%N then Some []
      else
        match name_until_brace s' with
        | Some name => Some (c :: name)
        | None => None
        end
  end.

(** The table of character names behind the [\N{...}] escape
    ([unicodedata]'s lookup of a name). *)
Class UnicodeNames := { getcode : list N -> option N }.

Section Splitter.
Context {U : UnicodeNames}.

(** The item that starts with the byte [c], followed by [s]: the code
    points it stands for and the number of bytes of [s] it takes up. *)
Definition escape_at (c : N) (s : list N) : res (str * nat) :=
  if negb (c =? backslash)%N then Ok ([c], 0)
  else
    match s with
    | [] => Raise (UnicodeDecodeError "\ at end of string")
    | e :: s' =>
        if (e =? 10)%N then Ok ([], 1)                       (* line continuation *)
        else if (e =? backslash)%N then Ok ([backslash], 1)
        else if (e =? 39)%N then Ok ([39%N], 1)               (* \' *)
        else if (e =? 34)%N then Ok ([34%N], 1)               (* a double quote *)
        else if (e =? 98)%N then Ok ([8%N], 1)                (* \b *)
        else if (e =? 102)%N then Ok ([12%N], 1)              (* \f *)
        else if (e =? 116)%N then Ok ([9%N], 1)               (* \t *)
        else if (e =? 110)%N then Ok ([10%N], 1)              (* \n *)
        else if (e =? 114)%N then Ok ([13%N], 1)              (* \r *)
        else if (e =? 118)%N then Ok ([11%N], 1)              (* \v *)
        else if (e =? 97)%N then Ok ([7%N], 1)                (* \a *)
        else if is_octal e then
          let '(ch, digits) := octal_escape e s' in Ok ([ch], digits)
        else if (e =? 120)%N then                              (* \xXX *)
          match hex_escape 2 0 s' with
          | Some ch => Ok ([ch], 3)
          | None => Raise (UnicodeDecodeError "truncated \xXX escape")
          end
        else if (e =? 117)%N then                              (* \uXXXX *)
          match hex_escape 4 0 s' with
          | Some ch => Ok ([ch], 5)
          | None => Raise (UnicodeDecodeError "truncated \uXXXX escape")
          end
        else if (e =? 85)%N then                               (* \UXXXXXXXX *)
          match hex_escape 8 0 s' with
          | Some ch =>
              if (1114111 <? ch)%N then
                Raise (UnicodeDecodeError "illegal Unicode character")
              else Ok ([ch], 9)
          | None => Raise (UnicodeDecodeError "truncated \UXXXXXXXX escape")
          end
        else if (e =? 78)%N then                               (* \N{name} *)
          match s' with
          | b :: s'' =>
              if (b =? 123)%N then
                match name_until_brace s'' with
                | Some (n :: name) =>
                    match getcode (n :: name) with
                    | Some ch => Ok ([ch], 3 + length (n :: name))
                    | None =>
                        Raise (UnicodeDecodeError "unknown Unicode character name")
                    end
                | _ => Raise (UnicodeDecodeError "malformed \N character escape")
                end
              else Raise (UnicodeDecodeError "malformed \N character escape")
          | [] => Raise (UnicodeDecodeError "malformed \N character escape")
          end
        else Ok ([backslash; e], 1)                            (* kept as it is *)
    end.

(** The decoding loop; [skip] counts the bytes of the current escape still
    to pass over. *)
Fixpoint escape_decode (skip : nat) (s : list N) : res str :=
  match s with
  | [] => Ok []
  | c :: s' =>
      match skip with
      | S k => escape_decode k s'
      | O =>
          match escape_at c s' with
          | Raise e => Raise e
          | Ok (out, extra) =>
              match escape_decode extra s' with
              | Raise e => Raise e
              | Ok rest => Ok (out ++ rest)
              end
          end
      end
  end.

(** [codecs.decode(s, 'unicode_escape')] *)
Definition unicode_escape_decode (s : str) : res str :=
  match utf8_encode s with
  | Raise e => Raise e
  | Ok bytes => escape_decode 0 bytes
  end.

(** ** SpotlessTextSplitByDelimiter.run *)

(** The truth value of a [str]. *)
Definition truthy (s : str) : bool :=
  match s with [] => false | _ :: _ => true end.

(** The list the node builds before the window is applied. *)
Definition segments (text delimiter : str) : res (list str) :=
  match delimiter with
  | [] => Ok [strip text]
  | _ :: _ =>
      match unicode_escape_decode delimiter with
      | Raise e => Raise e
      | Ok delimiter' =>
          match str_split text delimiter' with
          | Raise e => Raise e
          | Ok lines => Ok (List.filter (fun line => truthy (strip line)) lines)
          end
      end
  end.

(** [run(text, delimiter, start_index, skip_every, max_count)]; the
    one-element tuple of the source is left out. *)
Definition run (text delimiter : str) (start_index skip_every max_count : Z)
    : res (list str) :=
  match segments text delimiter with
  | Raise e => Raise e
  | Ok arr =>
      getslice arr start_index
        (start_index + max_count * (skip_every + 1))%Z (skip_every + 1)%Z
  end.

End Splitter.

(** A table with the names of a few punctuation characters, on which the
    concrete examples run. *)
Definition sample_names : UnicodeNames :=
  {| getcode name :=
       if decide (name = py "COMMA") then Some 44%N
       else if decide (name = py "SEMICOLON") then Some 59%N
       else if decide (name = py "VERTICAL LINE") then Some 124%N
       else None |}.

(** The window of the specification: start at [start], step by [stride],
    stop after [count] items or at the end of the list. *)
Fixpoint window {A} (l : list A) (start stride count : nat) : list A :=
  match count with
  | O => []
  | S count' =>
      match l !! start with
      | Some x => x :: window l (start + stride) stride count'
      | None => []
      end
  end.

(** ** The wildcard pattern *)

Definition lbrace : N := 123.
Definition pipe : N := 124.
Definition rbrace : N := 125.

Definition is_brace (c : N) : bool := ((c =? lbrace) || (c =? rbrace))%N.

(** The longest run of characters of the class [[^{}]], and what follows. *)
Fixpoint nonbrace_run (s : str) : str * str :=
  match s with
  | [] => ([], [])
  | c :: s' =>
      if is_brace c then ([], s)
      else let '(run, rest) := nonbrace_run s' in (c :: run, rest)
  end.

(** [WILDCARD_PATTERN.match(s)]: the text matched by [{[^{}]+}] at the
    start of [s]. The class is greedy and excludes both braces, so the only
    candidate is the longest run, which must be non-empty and followed by
    the closing brace. *)
Definition match_here (s : str) : option str :=
  match s with
  | [] => None
  | c :: s' =>
      if (c =? lbrace)%N then
        match nonbrace_run s' with
        | (b :: body, d :: _) =>
            if (d =? rbrace)%N then Some (c :: (b :: body) ++ [d]) else None
        | _ => None
        end
      else None
  end.

(** A match object: [match.start()] and [match.group()]. *)
Record Match := { m_start : nat; m_group : str }.

Fixpoint search_from (pos : nat) (s : str) : option Match :=
  match s with
  | [] => None
  | _ :: s' =>
      match match_here s with
      | Some g => Some {| m_start := pos; m_group := g |}
      | None => search_from (S pos) s'
      end
  end.

(** [WILDCARD_PATTERN.search(s)]: the leftmost match. *)
Definition search (s : str) : option Match := search_from 0 s.

(** ** Dictionaries and the console

    The keys of a dictionary are the hashable objects; [True] and [1], and
    [False] and [0], are one key. *)
Inductive key :=
| KNone
| KInt (z : Z)
| KStr (s : str).

#[global] Instance key_eq_dec : EqDecision key.
Proof. solve_decision. Defined.

#[global] Instance key_countable : Countable key.
Proof.
  refine (inj_countable'
    (fun k => match k with
              | KNone => inl ()
              | KInt z => inr (inl z)
              | KStr s => inr (inr s)
              end)
    (fun x => match x with
              | inl _ => KNone
              | inr (inl z) => KInt z
              | inr (inr s) => KStr s
              end) _).
  by intros [].
Defined.

(** The key an object is stored under: [hash] fails on lists and dicts. *)
Definition to_key (v : val) : res key :=
  match v with
  | VNone => Ok KNone
  | VBool b => Ok (KInt (Z.b2z b))
  | VInt z => Ok (KInt z)
  | VStr s => Ok (KStr s)
  | VList _ => Raise (TypeError "unhashable type: 'list'")
  | VDict _ => Raise (TypeError "unhashable type: 'dict'")
  end.

(** The store of dictionary objects. A reference that the store does not
    hold reads as an empty dictionary. *)
Abbreviation heap := (gmap loc (gmap key val)).

Definition deref (h : heap) (l : loc) : gmap key val := default ∅ (h !! l).

(** The entry of the dictionary at [l] under [k], if there is one. *)
Definition cell (h : heap) (l : loc) (k : key) : option val := deref h l !! k.

(** [k in d] *)
Definition dict_contains (h : heap) (l : loc) (k : key) : bool :=
  bool_decide (is_Some (cell h l k)).

(** [d.get(k)] *)
Definition dict_get (h : heap) (l : loc) (k : key) : val :=
  default VNone (cell h l k).

(** [d[k]] *)
Definition dict_getitem (h : heap) (l : loc) (k : key) : res val :=
  match cell h l k with
  | Some v => Ok v
  | None => Raise (KeyError "key not found")
  end.

(** [d[k] = v], for a key already hashed. *)
Definition dict_store (h : heap) (l : loc) (k : key) (v : val) : heap :=
  <[l := <[k := v]> (deref h l)]> h.

(** [{}]: a new, empty dictionary object. *)
Definition dict_new (h : heap) : loc * heap :=
  let l := fresh (dom h) in (l, <[l := ∅]> h).

(** [if k not in d: d[k] = {}] *)
Definition ensure_dict (h : heap) (l : loc) (k : key) : heap :=
  if dict_contains h l k then h
  else let '(e, h') := dict_new h in dict_store h' l k (VDict e).

(** The lines the node prints. *)
Inductive line :=
| SayResult (seed : val) (prompt : str)
    (* [ Stable Wildcard: (seed) "prompt"], in cyan *)
| SayNamespaceNotDict
    (* ["stable-wildcards" in extra is not a dictionary, cannot save metadata.], in yellow *)
| SayExtraNotDict
    (* ["extra" in workflow is not a dictionary, cannot save metadata.], in yellow *)
| SayWorkflowMissing
    (* [Workflow missing or not a dictionary, output not saved in metadata], in cyan *)
| SayHiddenMissing.
    (* [Hidden input missing or invalid, output not saved in metadata], in cyan *)

(** What a call can see and change besides its arguments: the dictionary
    objects and the console. *)
Record world := { w_heap : heap; w_console : list line }.

Definition print (ln : line) (w : world) : world :=
  {| w_heap := w_heap w; w_console := w_console w ++ [ln] |}.

Definition with_heap (h : heap) (w : world) : world :=
  {| w_heap := h; w_console := w_console w |}.

(** [kwargs.get(name)] *)
Definition kwargs_get (kwargs : gmap string val) (name : string) : val :=
  default VNone (kwargs !! name).

Definition k_workflow : key := KStr (py "workflow").
Definition k_extra : key := KStr (py "extra").
Definition k_namespace : key := KStr (py "stable-wildcards").

(** ** The pseudo-random generator

    [random.Random] is used through its contract: [Random seed] builds a
    generator from the seed alone and [randint g a b] returns an integer of
    [[a, b]] with the generator's next state. *)
Class PRNG := {
  rng : Type;
  Random : Z -> rng;
  randint : rng -> Z -> Z -> Z * rng;
  randint_range : forall g a b, (a <= b)%Z ->
    (a <= fst (randint g a b) <= b)%Z
}.

(** ** StableWildcard.process_wildcards *)

Section Resolver.
Context {P : PRNG}.

(** What one pass through the body of the [while match:] loop does. *)
Inductive pass :=
| Again                              (* [continue]: nothing has changed *)
| Fail (e : exn)                     (* an exception leaves the loop *)
| Next (g : rng) (prompt : str).     (* the generator and prompt to go on with *)

(** The loop body, for the current match [mt] of [prompt]. *)
Definition loop_body (g : rng) (prompt : str) (mt : Match) : pass :=
  match getslice (m_group mt) 1 (-1) 1 with
  | Raise e => Fail e
  | Ok interior =>
      match str_split interior [pipe] with
      | Raise e => Fail e
      | Ok ops =>
          match ops with
          | [] => Again
          | _ :: _ =>
              let '(i, g') := randint g 0 (Z.of_nat (length ops) - 1) in
              match getitem ops i with
              | Raise e => Fail e
              | Ok pick => Next g' (replace_once prompt (m_group mt) pick)
              end
          end
      end
  end.

(** The [while match:] loop. [None] is a loop still running when the step
    budget is spent. *)
Fixpoint resolve_loop (fuel : nat) (g : rng) (prompt : str)
    (m : option Match) : option (res str) :=
  match m with
  | None => Some (Ok prompt)
  | Some mt =>
      match fuel with
      | O => None
      | S fuel' =>
          match loop_body g prompt mt with
          | Again => resolve_loop fuel' g prompt m
          | Fail e => Some (Raise e)
          | Next g' prompt' => resolve_loop fuel' g' prompt' (search prompt')
          end
      end
  end.

(** The four argument checks, in the order of the source. *)
Definition check_args (prompt seed : val) : res unit :=
  if is_none prompt then Raise (TypeError "prompt cannot be None")
  else if negb (isinstance_str prompt) then
    Raise (TypeError ("prompt must be a string, but got " +:+ type_name prompt))
  else if is_none seed then Raise (TypeError "seed cannot be None")
  else if negb (isinstance_int seed) then
    Raise (TypeError ("seed must be an integer, but got " +:+ type_name seed))
  else Ok tt.

Definition process_wildcards_fuel (fuel : nat) (prompt seed : val)
    : option (res str) :=
  match check_args prompt seed with
  | Raise e => Some (Raise e)
  | Ok _ =>
      let g := Random (int_of seed) in
      resolve_loop fuel g (str_of prompt) (search (str_of prompt))
  end.

(** [process_wildcards(prompt, seed)], with a step budget that the loop
    never exhausts (see [resolve_loop_terminates]). *)
Definition process_wildcards (prompt seed : val) : option (res str) :=
  process_wildcards_fuel (length (str_of prompt)) prompt seed.

(** ** StableWildcard.execute *)

(** The last step of [execute]: the result goes into
    [png_info['workflow']['extra']['stable-wildcards'][unique_id]] when
    every level is there or can be made, and a line is printed otherwise. *)
Definition save_metadata (unique_id png_info : val) (prompt : str) (w : world)
    : res unit * world :=
  (* unique_id is not None and png_info is not None and isinstance(png_info, dict) *)
  match negb (is_none unique_id), png_info with
  | true, VDict pl =>
      (* workflow is not None and isinstance(workflow, dict) *)
      match dict_get (w_heap w) pl k_workflow with
      | VDict wl =>
          let h1 := ensure_dict (w_heap w) wl k_extra in
          (* isinstance(workflow.get('extra'), dict) *)
          match dict_get h1 wl k_extra with
          | VDict _ =>
              match dict_getitem h1 wl k_extra with
              | Ok (VDict el) =>
                  let h2 := ensure_dict h1 el k_namespace in
                  (* isinstance(extra_data.get('stable-wildcards'), dict) *)
                  match dict_get h2 el k_namespace with
                  | VDict _ =>
                      match dict_getitem h2 el k_namespace with
                      | Ok (VDict nl) =>
                          match to_key unique_id with
                          | Ok k =>
                              (Ok tt,
                               with_heap (dict_store h2 nl k (VStr prompt)) w)
                          | Raise e => (Raise e, with_heap h2 w)
                          end
                      | Ok _ =>      (* not reached: [get] has just seen a dict *)
                          (Raise (TypeError "object does not support item assignment"),
                           with_heap h2 w)
                      | Raise e => (Raise e, with_heap h2 w)
                      end
                  | _ => (Ok tt, print SayNamespaceNotDict (with_heap h2 w))
                  end
              | Ok _ =>              (* not reached: [get] has just seen a dict *)
                  (Raise (TypeError "argument is not iterable"),
                   with_heap h1 w)
              | Raise e => (Raise e, with_heap h1 w)
              end
          | _ => (Ok tt, print SayExtraNotDict (with_heap h1 w))
          end
      | _ => (Ok tt, print SayWorkflowMissing w)
      end
  | _, _ => (Ok tt, print SayHiddenMissing w)
  end.

(** [execute(prompt, seed, **kwargs)]; the one-element tuple of the source
    is left out. [None] is a call that does not return. *)
Definition execute (prompt seed : val) (kwargs : gmap string val) (w : world)
    : option (res str * world) :=
  match check_args prompt seed with
  | Raise e => Some (Raise e, w)
  | Ok _ =>
      match process_wildcards prompt seed with
      | None => None
      | Some (Raise e) => Some (Raise e, w)
      | Some (Ok prompt') =>
          let w1 := print (SayResult seed prompt') w in
          let unique_id := kwargs_get kwargs "id" in
          let png_info := kwargs_get kwargs "png_info" in
          match save_metadata unique_id png_info prompt' w1 with
          | (Raise e, w2) => Some (Raise e, w2)
          | (Ok _, w2) => Some (Ok prompt', w2)
          end
      end
  end.

End Resolver.

(** ** The route /stable-wildcards/process *)

(** The JSON response: the resolved prompt of its body and the content
    type. *)
Record response := { resp_prompt : str; resp_content_type : string }.

(** [obj[name]] for a string [name]. *)
Definition subscript (h : heap) (obj : val) (name : str) : res val :=
  match obj with
  | VDict l => dict_getitem h l (KStr name)
  | VList _ =>
      Raise (TypeError "list indices must be integers or slices, not str")
  | VStr _ => Raise (TypeError "string indices must be integers")
  | _ => Raise (TypeError "object is not subscriptable")
  end.

Section Endpoint.
Context {P : PRNG}.

(** [process_stable_wildcards(req)], from the parsed body [json_data] of
    the request on. *)
Definition process_stable_wildcards (json_data : val) (h : heap)
    : option (res response) :=
  match subscript h json_data (py "prompt") with
  | Raise e => Some (Raise e)
  | Ok prompt =>
      match subscript h json_data (py "seed") with
      | Raise e => Some (Raise e)
      | Ok seed =>
          match process_wildcards prompt seed with
          | None => None
          | Some (Raise e) => Some (Raise e)
          | Some (Ok out) =>
              Some (Ok {| resp_prompt := out;
                          resp_content_type := "application/json" |})
          end
      end
  end.

End Endpoint.

(** A small linear congruential generator that meets the contract; the
    concrete examples below run on it. *)
Definition lcg_next (s : Z) : Z := ((s * 1103515245 + 12345) mod 2147483648)%Z.

Definition lcg_randint (g a b : Z) : Z * Z :=
  ((a + lcg_next g mod (b - a + 1))%Z, lcg_next g).

Definition lcg : PRNG.
Proof.
  refine {| rng := Z; Random := Z.abs; randint := lcg_randint |}.
  intros g a b Hab. unfold lcg_randint. cbn [fst].
  pose proof (Z.mod_pos_bound (lcg_next g) (b - a + 1)). lia.
Defined.

(** A world to run [execute] in: [png_info] is the dictionary at 1, whose
    [workflow] is the dictionary at 2, still empty. *)
Definition sample_heap : heap :=
  {[ 1%positive := {[ k_workflow := VDict 2 ]}; 2%positive := ∅ ]}.

Definition sample_world : world :=
  {| w_heap := sample_heap; w_console := [] |}.

Definition sample_kwargs (id : val) : gmap string val :=
  {[ "id" := id; "png_info" := VDict 1 ]}.


(** ** The language of the pattern, in the words of the specification *)

Definition nonbrace (c : N) : Prop := is_brace c = false.

(** A wildcard group: an opening brace, one or more characters that are
    not braces, a closing brace. *)
Definition is_group (g : str) : Prop :=
  exists body, g = lbrace :: body ++ [rbrace] /\ body <> [] /\ Forall nonbrace body.

(** [s] contains a substring that is a wildcard group. *)
Definition has_group (s : str) : Prop :=
  exists pre g post, s = pre ++ g ++ post /\ is_group g.

(** The number of brace characters of a string. *)
Definition braces (s : str) : nat := length (filter (fun c => is_brace c = true) s).

(** The number of wildcard groups of a string: the positions at which the
    pattern matches (two matches never overlap, as a match holds no brace
    but its first and last character). *)
Fixpoint count_groups (s : str) : nat :=
  match s with
  | [] => 0
  | _ :: s' => (match match_here s with Some _ => 1 | None => 0 end) + count_groups s'
  end.


(** * Properties *)

(** ** Facts about the built-ins *)

Lemma is_prefix_app (p t : str) : is_prefix p (p ++ t) = true.
Proof.
  induction p as [|a p IH]; [done|]. cbn. by rewrite N.eqb_refl, IH.
Qed.

Lemma is_prefix_inv (p s : str) :
  is_prefix p s = true -> exists t, s = p ++ t.
Proof.
  revert s. induction p as [|a p IH]; intros s H.
  - by exists s.
  - destruct s as [|b s]; [done|]. cbn in H.
    apply andb_prop in H as [Hab Hp]. apply N.eqb_eq in Hab as ->.
    destruct (IH _ Hp) as [t ->]. by exists t.
Qed.

Lemma cons_head_nonempty (c : N) (segs : list str) : cons_head c segs <> [].
Proof. by destruct segs. Qed.

Lemma split_go_nonempty (sep : str) (skip : nat) (s : str) :
  split_go sep skip s <> [].
Proof.
  revert skip. induction s as [|c s IH]; intros skip; [done|].
  cbn [split_go]. destruct skip; [|apply IH].
  destruct (is_prefix sep (c :: s)); [done|apply cons_head_nonempty].
Qed.

Lemma cons_head_Forall (Q : N -> Prop) (c : N) (segs : list str) :
  Q c -> Forall (Forall Q) segs -> Forall (Forall Q) (cons_head c segs).
Proof.
  intros Hc Hs. destruct segs as [|seg rest]; cbn.
  - repeat constructor. done.
  - inversion Hs; subst. constructor; [by constructor|done].
Qed.

(** Every segment is made of characters of the text. *)
Lemma split_go_Forall (Q : N -> Prop) (sep : str) (skip : nat) (s : str) :
  Forall Q s -> Forall (Forall Q) (split_go sep skip s).
Proof.
  revert skip. induction s as [|c s IH]; intros skip Hs.
  - repeat constructor.
  - inversion Hs; subst. cbn [split_go]. destruct skip; [|by apply IH].
    destruct (is_prefix sep (c :: s)).
    + constructor; [constructor|by apply IH].
    + apply cons_head_Forall; [done|by apply IH].
Qed.

Lemma join_cons_head (sep : str) (c : N) (segs : list str) :
  segs <> [] -> join sep (cons_head c segs) = c :: join sep segs.
Proof. by destruct segs as [|seg [|seg' rest]]. Qed.

Lemma join_split_go (a : N) (sep : str) (skip : nat) (s : str) :
  skip <= length s ->
  join (a :: sep) (split_go (a :: sep) skip s) = drop skip s.
Proof.
  revert skip. induction s as [|c s IH]; intros skip Hskip.
  - by destruct skip; [|cbn in Hskip; lia].
  - cbn [split_go]. destruct skip as [|k].
    + destruct (is_prefix (a :: sep) (c :: s)) eqn:Hp.
      * apply is_prefix_inv in Hp as [t Ht]. injection Ht as -> ->.
        replace (length (a :: sep) - 1) with (length sep) by (cbn [length]; lia).
        pose proof (split_go_nonempty (a :: sep) (length sep) (sep ++ t)) as Hne.
        pose proof (IH (length sep)) as IHs.
        destruct (split_go (a :: sep) (length sep) (sep ++ t)) as [|seg rest];
          [done|].
        change (join (a :: sep) ([] :: seg :: rest))
          with ((a :: sep) ++ join (a :: sep) (seg :: rest)).
        rewrite IHs by (rewrite length_app; lia).
        by rewrite drop_app_length.
      * rewrite join_cons_head by apply split_go_nonempty.
        by rewrite IH by lia.
    + cbn [length] in Hskip. rewrite IH by lia. done.
Qed.

(** Joining the segments with the separator gives the text back. *)
Lemma join_split (s sep : str) (lines : list str) :
  str_split s sep = Ok lines -> join sep lines = s.
Proof.
  destruct sep as [|a sep]; [done|]. intros [= <-].
  by rewrite join_split_go by lia.
Qed.

Lemma nonbrace_run_app (body rest : str) (d : N) :
  Forall nonbrace body -> is_brace d = true ->
  nonbrace_run (body ++ d :: rest) = (body, d :: rest).
Proof.
  intros Hb Hd. induction Hb as [|c body Hc _ IH]; cbn.
  - by rewrite Hd.
  - unfold nonbrace in Hc. by rewrite Hc, IH.
Qed.

Lemma nonbrace_run_inv (s run rest : str) :
  nonbrace_run s = (run, rest) -> s = run ++ rest /\ Forall nonbrace run.
Proof.
  revert run rest. induction s as [|c s IH]; intros run rest H; cbn in H.
  - by inversion H.
  - destruct (is_brace c) eqn:Hc.
    + by inversion H.
    + destruct (nonbrace_run s) as [run' rest'] eqn:E. inversion H; subst.
      destruct (IH _ _ eq_refl) as [-> Hrun]. split; [done|by constructor].
Qed.

Lemma rbrace_is_brace : is_brace rbrace = true.
Proof. reflexivity. Qed.

(** A match at the start of [s] is a wildcard group that [s] begins with. *)
Lemma match_here_Some (s g : str) :
  match_here s = Some g -> is_group g /\ exists post, s = g ++ post.
Proof.
  unfold match_here. destruct s as [|c s]; [done|].
  destruct (N.eqb_spec c lbrace) as [->|]; [|done].
  destruct (nonbrace_run s) as [run rest] eqn:E.
  apply nonbrace_run_inv in E as [-> Hrun].
  destruct run as [|b body]; [done|]. destruct rest as [|d rest]; [done|].
  destruct (N.eqb_spec d rbrace) as [->|]; [|done].
  intros [= <-]. split.
  - exists (b :: body). done.
  - exists rest. cbn. by rewrite <- !app_assoc.
Qed.

(** The pattern matches at the start of any text that begins with a group,
    and the text it matches is that group. *)
Lemma match_here_group (g post : str) :
  is_group g -> match_here (g ++ post) = Some g.
Proof.
  intros (body & -> & Hne & Hbody). cbn.
  rewrite <- app_assoc. cbn.
  rewrite (nonbrace_run_app body post rbrace Hbody rbrace_is_brace).
  destruct body as [|b body]; [done|]. reflexivity.
Qed.

(** ** Facts about the search *)

(** A successful search splits the text around a group; the match is the
    leftmost one, so [str.replace] with a count of one rewrites exactly the
    matched occurrence. *)
Lemma search_from_Some (pos : nat) (s : str) (m : Match) :
  search_from pos s = Some m ->
  exists pre post,
    s = pre ++ m_group m ++ post /\ is_group (m_group m) /\
    m_start m = pos + length pre /\
    forall new, replace_once s (m_group m) new = pre ++ new ++ post.
Proof.
  revert pos. induction s as [|c s IH]; intros pos H; [done|].
  cbn [search_from] in H. destruct (match_here (c :: s)) as [g|] eqn:E.
  - injection H as <-. cbn [m_group m_start].
    destruct (match_here_Some _ _ E) as [Hg [post Hs]].
    exists [], post. repeat split; [done|done|cbn; lia|].
    intros new. rewrite Hs. destruct g as [|a g].
    { destruct Hg as (body & Hb & _). done. }
    change (replace_once ((a :: g) ++ post) (a :: g) new)
      with (if is_prefix (a :: g) ((a :: g) ++ post)
            then new ++ drop (length (a :: g)) ((a :: g) ++ post)
            else a :: replace_once (g ++ post) (a :: g) new).
    rewrite is_prefix_app. by rewrite drop_app_length.
  - destruct (IH _ H) as (pre & post & Hs & Hg & Hstart & Hrep).
    exists (c :: pre), post. repeat split.
    + cbn. by rewrite <- Hs.
    + done.
    + cbn. lia.
    + intros new. cbn [replace_once].
      destruct (is_prefix (m_group m) (c :: s)) eqn:Hp.
      * apply is_prefix_inv in Hp as [t Ht].
        rewrite Ht, (match_here_group _ t Hg) in E. done.
      * cbn. by rewrite Hrep.
Qed.

Lemma search_Some (s : str) (m : Match) :
  search s = Some m ->
  exists pre post,
    s = pre ++ m_group m ++ post /\ is_group (m_group m) /\
    m_start m = length pre /\
    forall new, replace_once s (m_group m) new = pre ++ new ++ post.
Proof. apply search_from_Some. Qed.

(** The search fails only on a text in which the pattern matches nowhere. *)
Lemma search_from_None (pos : nat) (s : str) :
  search_from pos s = None -> ~ has_group s.
Proof.
  revert pos. induction s as [|c s IH]; intros pos H (pre & g & post & Hs & Hg).
  - destruct Hg as (body & -> & _). by destruct pre.
  - cbn [search_from] in H. destruct (match_here (c :: s)) eqn:E; [done|].
    destruct pre as [|a pre].
    + cbn in Hs. rewrite Hs, (match_here_group _ _ Hg) in E. done.
    + injection Hs as -> ->. apply (IH _ H). by exists pre, g, post.
Qed.

(** No group begins before the match the search returns. *)
Lemma search_from_leftmost (pos : nat) (s : str) (m : Match) :
  search_from pos s = Some m ->
  forall pre g post, s = pre ++ g ++ post -> is_group g ->
    m_start m <= pos + length pre.
Proof.
  revert pos. induction s as [|c s IH]; intros pos H pre g post Hs Hg; [done|].
  cbn [search_from] in H. destruct (match_here (c :: s)) as [g'|] eqn:E.
  - injection H as <-. cbn. lia.
  - destruct pre as [|a pre].
    + cbn in Hs. rewrite Hs, (match_here_group _ _ Hg) in E. done.
    + injection Hs as -> ->. specialize (IH _ H pre g post eq_refl Hg).
      cbn [length]. lia.
Qed.

Lemma search_None_iff (s : str) : search s = None <-> ~ has_group s.
Proof.
  split; [apply search_from_None|].
  intros Hno. destruct (search s) as [m|] eqn:E; [|done].
  destruct (search_Some _ _ E) as (pre & post & Hs & Hg & _).
  destruct Hno. by exists pre, (m_group m), post.
Qed.

(** ** Facts about slicing and indexing *)

Lemma stride_items_unit {A} (l : list A) (a n : nat) :
  a + n <= length l ->
  stride_items l (Z.of_nat a) 1 n = take n (drop a l).
Proof.
  revert a. induction n as [|n IH]; intros a Hlen; [done|].
  cbn [stride_items]. unfold item_at.
  destruct (Z.ltb_spec (Z.of_nat a) 0) as [?|_]; [lia|].
  rewrite Nat2Z.id.
  destruct (l !! a) as [x|] eqn:Hx.
  - replace (Z.of_nat a + 1)%Z with (Z.of_nat (S a)) by lia.
    rewrite IH by lia.
    rewrite (drop_S _ _ _ Hx). done.
  - apply lookup_ge_None in Hx. lia.
Qed.

(** [g[1:-1]] drops the first and the last character. *)
Lemma getslice_interior (a b : N) (body : str) :
  getslice (a :: body ++ [b]) 1 (-1) 1 = Ok body.
Proof.
  unfold getslice. cbn [Z.eqb]. f_equal.
  set (len := Z.of_nat (length (a :: body ++ [b]))).
  assert (Hlen : len = (Z.of_nat (length body) + 2)%Z).
  { unfold len. cbn [length]. rewrite length_app. cbn [length]. lia. }
  assert (Hstart : adjust_bound len 1 1 = 1%Z).
  { unfold adjust_bound. cbn [Z.ltb Z.compare].
    destruct (Z.leb_spec len 1); [lia|done]. }
  assert (Hstop : adjust_bound len 1 (-1) = (Z.of_nat (length body) + 1)%Z).
  { unfold adjust_bound. cbn [Z.ltb Z.compare].
    destruct (Z.ltb_spec (-1 + len) 0); lia. }
  rewrite Hstart, Hstop. unfold slice_length. cbn [Z.ltb Z.compare].
  destruct (Z.ltb_spec 1 (Z.of_nat (length body) + 1)) as [Hlt|Hge].
  - rewrite Z.div_1_r.
    replace (Z.to_nat (Z.of_nat (length body) + 1 - 1 - 1 + 1)) with (length body) by lia.
    rewrite (stride_items_unit _ 1 (length body)).
    + cbn [drop]. rewrite drop_0. by rewrite take_app_length.
    + cbn [length]. rewrite length_app. cbn [length]. lia.
  - destruct body; [done|]. cbn [length] in Hge. lia.
Qed.

(** An index within the list selects one of its elements. *)
Lemma getitem_in_range {A} (l : list A) (i : Z) :
  (0 <= i < Z.of_nat (length l))%Z ->
  exists x, getitem l i = Ok x /\ x ∈ l.
Proof.
  intros Hi. unfold getitem, item_at. cbv zeta.
  assert (Hn : (i <? 0)%Z = false) by lia.
  rewrite Hn. cbv iota. rewrite Hn.
  destruct (l !! Z.to_nat i) as [x|] eqn:Hx.
  - exists x. split; [reflexivity|]. by eapply list_elem_of_lookup_2.
  - apply lookup_ge_None in Hx. lia.
Qed.

(** ** Counting braces *)

Lemma braces_app (a b : str) : braces (a ++ b) = braces a + braces b.
Proof. unfold braces. by rewrite filter_app, length_app. Qed.

Lemma braces_nonbrace (s : str) : Forall nonbrace s -> braces s = 0.
Proof.
  unfold braces. induction 1 as [|c s Hc _ IH]; [done|].
  rewrite filter_cons_False; [done|]. unfold nonbrace in Hc. by rewrite Hc.
Qed.

Lemma braces_group (g : str) : is_group g -> braces g = 2.
Proof.
  intros (body & -> & _ & Hb).
  change (lbrace :: body ++ [rbrace]) with ([lbrace] ++ body ++ [rbrace]).
  rewrite !braces_app, (braces_nonbrace _ Hb). reflexivity.
Qed.

Lemma braces_le_length (s : str) : braces s <= length s.
Proof. apply length_filter. Qed.

(** ** The loop of process_wildcards *)

Section ResolverFacts.
Context {P : PRNG}.

(** One pass over a match found by the search: the group is cut open, its
    interior split into at least one option, the drawn index selects one of
    them, and that option takes the place of the group. *)
Lemma loop_body_on_match (g : rng) (prompt : str) (mt : Match) :
  search prompt = Some mt ->
  exists pre body post ops i g' pick,
    prompt = pre ++ (lbrace :: body ++ [rbrace]) ++ post /\
    m_group mt = lbrace :: body ++ [rbrace] /\
    body <> [] /\ Forall nonbrace body /\
    getslice (m_group mt) 1 (-1) 1 = Ok body /\
    str_split body [pipe] = Ok ops /\
    randint g 0 (Z.of_nat (length ops) - 1) = (i, g') /\
    (0 <= i < Z.of_nat (length ops))%Z /\
    getitem ops i = Ok pick /\ pick ∈ ops /\ Forall nonbrace pick /\
    loop_body g prompt mt = Next g' (pre ++ pick ++ post).
Proof.
  intros Hs.
  destruct (search_Some _ _ Hs) as (pre & post & Hp & Hg & _ & Hrep).
  destruct Hg as (body & Hgrp & Hne & Hbody).
  pose (ops := split_go [pipe] 0 body).
  assert (Hops : ops <> []) by apply split_go_nonempty.
  destruct (randint g 0 (Z.of_nat (length ops) - 1)) as [i g'] eqn:Hr.
  assert (Hi : (0 <= i < Z.of_nat (length ops))%Z).
  { pose proof (randint_range g 0 (Z.of_nat (length ops) - 1)) as Hrange.
    rewrite Hr in Hrange. cbn [fst] in Hrange.
    destruct ops; [done|]. cbn [length] in *. lia. }
  destruct (getitem_in_range ops i Hi) as (pick & Hpick & Hin).
  assert (Hnb : Forall nonbrace pick).
  { pose proof (split_go_Forall nonbrace [pipe] 0 body Hbody) as Hall.
    rewrite Forall_forall in Hall. by apply Hall. }
  exists pre, body, post, ops, i, g', pick.
  repeat split; try done.
  - by rewrite Hp, Hgrp.
  - rewrite Hgrp. apply getslice_interior.
  - lia.
  - lia.
  - unfold loop_body. rewrite Hgrp at 1. rewrite getslice_interior.
    cbn [str_split]. fold ops. destruct ops as [|o ops'] eqn:Eo; [done|].
    rewrite Hr, Hpick. by rewrite Hrep.
Qed.

(** Each pass removes exactly the two braces of the group it resolves. *)
Lemma loop_body_braces (g : rng) (prompt : str) (mt : Match) :
  search prompt = Some mt ->
  exists g' prompt',
    loop_body g prompt mt = Next g' prompt' /\
    braces prompt' + 2 = braces prompt.
Proof.
  intros Hs.
  destruct (loop_body_on_match g prompt mt Hs)
    as (pre & body & post & ops & i & g' & pick & Hp & _ & Hne & Hb & _ & _ &
        _ & _ & _ & _ & Hnb & Hbody).
  exists g', (pre ++ pick ++ post). split; [done|].
  rewrite Hp, !braces_app, (braces_nonbrace _ Hnb).
  rewrite (braces_group (lbrace :: body ++ [rbrace])); [lia|].
  by exists body.
Qed.

(** The loop ends, with a text free of groups, within half as many passes
    as the prompt has braces. *)
Lemma resolve_loop_terminates (fuel : nat) (g : rng) (prompt : str) :
  braces prompt <= 2 * fuel + 1 ->
  exists out,
    resolve_loop fuel g prompt (search prompt) = Some (Ok out) /\
    search out = None.
Proof.
  revert g prompt. induction fuel as [|fuel IH]; intros g prompt Hb.
  - destruct (search prompt) as [mt|] eqn:Hs.
    + destruct (loop_body_braces g prompt mt Hs) as (? & ? & _ & ?). lia.
    + by exists prompt.
  - destruct (search prompt) as [mt|] eqn:Hs.
    + destruct (loop_body_braces g prompt mt Hs) as (g' & prompt' & Hbody & Hdec).
      destruct (IH g' prompt') as (out & Hout & Hfree); [lia|].
      exists out. cbn [resolve_loop]. by rewrite Hbody.
    + by exists prompt.
Qed.

(** A larger step budget does not change a result. *)
Lemma resolve_loop_more_fuel (fuel fuel' : nat) (g : rng) (prompt : str)
    (m : option Match) (r : res str) :
  resolve_loop fuel g prompt m = Some r -> fuel <= fuel' ->
  resolve_loop fuel' g prompt m = Some r.
Proof.
  revert fuel' g prompt m.
  induction fuel as [|fuel IH]; intros fuel' g prompt m H Hle.
  - destruct m; [done|]. by destruct fuel'.
  - destruct m as [mt|]; [|by destruct fuel'].
    destruct fuel' as [|fuel']; [lia|].
    cbn [resolve_loop] in *.
    destruct (loop_body g prompt mt); [| done |]; apply IH; (done || lia).
Qed.

Lemma check_args_valid (prompt seed : val) :
  isinstance_str prompt = true -> isinstance_int seed = true ->
  check_args prompt seed = Ok tt.
Proof. by destruct prompt, seed. Qed.

Lemma check_args_invalid (prompt seed : val) :
  isinstance_str prompt = false \/ isinstance_int seed = false ->
  exists msg, check_args prompt seed = Raise (TypeError msg).
Proof. destruct prompt, seed; intros [?|?]; try done; by eexists. Qed.

Lemma isinstance_cases (prompt seed : val) :
  (isinstance_str prompt = true /\ isinstance_int seed = true) \/
  (isinstance_str prompt = false \/ isinstance_int seed = false).
Proof. destruct (isinstance_str prompt), (isinstance_int seed); auto. Qed.

(** Two runs of the same call agree, whatever their step budgets. *)
Lemma process_wildcards_fuel_agree (f1 f2 : nat) (prompt seed : val)
    (r1 r2 : res str) :
  process_wildcards_fuel f1 prompt seed = Some r1 ->
  process_wildcards_fuel f2 prompt seed = Some r2 ->
  r1 = r2.
Proof.
  unfold process_wildcards_fuel. destruct (check_args prompt seed).
  - intros H1 H2.
    apply (resolve_loop_more_fuel _ (max f1 f2)) in H1; [|lia].
    apply (resolve_loop_more_fuel _ (max f1 f2)) in H2; [|lia].
    congruence.
  - congruence.
Qed.

(** Valid arguments always lead to a resolved text. *)
Lemma process_wildcards_returns (prompt seed : val) :
  isinstance_str prompt = true -> isinstance_int seed = true ->
  exists out,
    process_wildcards prompt seed = Some (Ok out) /\ search out = None.
Proof.
  intros Hp Hs. unfold process_wildcards, process_wildcards_fuel.
  rewrite (check_args_valid _ _ Hp Hs).
  apply resolve_loop_terminates.
  pose proof (braces_le_length (str_of prompt)). lia.
Qed.

(** C1. For every string prompt and integer seed, [process_wildcards]
    returns one output string, the same for every invocation and every
    step budget: it is the outcome of the loop run on a generator built
    by [Random] from the seed alone, and nothing but the two arguments
    enters the computation. The node returns that same string in every
    world (whatever the dictionaries and the console hold) and for every
    hidden input. *)
Theorem process_wildcards_deterministic (prompt seed : val) :
  isinstance_str prompt = true -> isinstance_int seed = true ->
  exists out : str,
    process_wildcards prompt seed = Some (Ok out) /\
    (forall fuel r,
        process_wildcards_fuel fuel prompt seed = Some r -> r = Ok out) /\
    resolve_loop (length (str_of prompt)) (Random (int_of seed))
      (str_of prompt) (search (str_of prompt)) = Some (Ok out) /\
    (forall kwargs w r w',
        execute prompt seed kwargs w = Some (Ok r, w') -> r = out).
Proof.
  intros Hp Hs.
  destruct (process_wildcards_returns prompt seed Hp Hs) as (out & Hout & _).
  exists out. split; [done|]. split; [|split].
  - intros fuel r Hr. symmetry.
    exact (process_wildcards_fuel_agree _ _ _ _ _ _ Hout Hr).
  - unfold process_wildcards, process_wildcards_fuel in Hout.
    by rewrite (check_args_valid _ _ Hp Hs) in Hout.
  - intros kwargs w r w' Hex. unfold execute in Hex.
    rewrite (check_args_valid _ _ Hp Hs), Hout in Hex. cbv zeta in Hex.
    destruct (save_metadata _ _ _ _) as [[] ?]; congruence.
Qed.

(** C2, as the code has it. The loop of [process_wildcards] terminates for
    every prompt and seed: each pass replaces the matched group by one of
    its options, which holds no brace, so the number of brace characters of
    the prompt goes down by exactly two; a budget of half that number of
    passes is never exhausted. *)
Theorem resolve_loop_braces_decrease (prompt : str) (seed : Z) :
  (forall g mt, search prompt = Some mt ->
     exists pre post pick g',
       prompt = pre ++ m_group mt ++ post /\
       loop_body g prompt mt = Next g' (pre ++ pick ++ post) /\
       Forall nonbrace pick /\
       braces (pre ++ pick ++ post) + 2 = braces prompt) /\
  exists out,
    search out = None /\
    process_wildcards (VStr prompt) (VInt seed) = Some (Ok out) /\
    forall fuel, braces prompt <= 2 * fuel + 1 ->
      resolve_loop fuel (Random seed) prompt (search prompt) = Some (Ok out).
Proof.
  split.
  - intros g mt Hs.
    destruct (loop_body_on_match g prompt mt Hs)
      as (pre & body & post & ops & i & g' & pick & Hp & Hg & Hne & Hb & _ &
          _ & _ & _ & _ & _ & Hnb & Hbody).
    exists pre, post, pick, g'. repeat split; try done.
    + by rewrite Hg.
    + rewrite Hp, !braces_app, (braces_nonbrace _ Hnb).
      rewrite (braces_group (lbrace :: body ++ [rbrace])); [lia|].
      by exists body.
  - destruct (process_wildcards_returns (VStr prompt) (VInt seed))
      as (out & Hout & Hfree); [done..|].
    exists out. repeat split; [done..|].
    intros fuel Hfuel.
    destruct (resolve_loop_terminates fuel (Random seed) prompt Hfuel)
      as (out' & Hout' & _).
    rewrite Hout'. f_equal.
    exact (process_wildcards_fuel_agree fuel (length prompt)
             (VStr prompt) (VInt seed) _ _ Hout' Hout).
Qed.

(** C5. [process_wildcards] raises exactly when the prompt is not a string
    ([None] included) or the seed is not an integer ([None] included); what
    it raises is the [TypeError] of the argument checks, reached before the
    first pass of the loop (a step budget of zero suffices), so no text is
    returned. [None] as prompt, [None] as seed and the string ["0"] as seed
    all raise. *)
Theorem process_wildcards_raises_iff (prompt seed : val) :
  ((exists e, process_wildcards prompt seed = Some (Raise e)) <->
   (isinstance_str prompt = false \/ isinstance_int seed = false)) /\
  (forall e, process_wildcards prompt seed = Some (Raise e) ->
     (exists msg, e = TypeError msg) /\
     check_args prompt seed = Raise e /\
     forall fuel, process_wildcards_fuel fuel prompt seed = Some (Raise e)) /\
  process_wildcards VNone (VInt 0)
    = Some (Raise (TypeError "prompt cannot be None")) /\
  process_wildcards (VStr (py "x")) VNone
    = Some (Raise (TypeError "seed cannot be None")) /\
  process_wildcards (VStr (py "x")) (VStr (py "0"))
    = Some (Raise (TypeError "seed must be an integer, but got str")).
Proof.
  assert (Hinv : isinstance_str prompt = false \/ isinstance_int seed = false ->
            exists msg, check_args prompt seed = Raise (TypeError msg) /\
              forall fuel, process_wildcards_fuel fuel prompt seed
                           = Some (Raise (TypeError msg))).
  { intros H. destruct (check_args_invalid _ _ H) as [msg Hm].
    exists msg. split; [done|]. intros fuel.
    unfold process_wildcards_fuel. by rewrite Hm. }
  assert (Hraise : forall e, process_wildcards prompt seed = Some (Raise e) ->
            isinstance_str prompt = false \/ isinstance_int seed = false).
  { intros e He. destruct (isinstance_cases prompt seed) as [[Hp Hs]|H]; [|done].
    destruct (process_wildcards_returns _ _ Hp Hs) as (out & Hout & _).
    congruence. }
  split; [split|split; [|by repeat split]].
  - intros [e He]. by eapply Hraise.
  - intros H. destruct (Hinv H) as (msg & _ & Hf). eexists. apply Hf.
  - intros e He. destruct (Hinv (Hraise e He)) as (msg & Hc & Hf).
    assert (e = TypeError msg) as ->.
    { unfold process_wildcards in He. rewrite Hf in He. congruence. }
    split; [by eexists|]. split; [done|apply Hf].
Qed.

(** C6. A string prompt in which the pattern matches nowhere is returned
    unchanged, for every integer seed. *)
Theorem process_wildcards_no_group (prompt seed : val) :
  isinstance_str prompt = true -> isinstance_int seed = true ->
  ~ has_group (str_of prompt) ->
  process_wildcards prompt seed = Some (Ok (str_of prompt)).
Proof.
  intros Hp Hs Hno. unfold process_wildcards, process_wildcards_fuel.
  rewrite (check_args_valid _ _ Hp Hs).
  apply search_None_iff in Hno. rewrite Hno. by destruct (length _).
Qed.

(** C7. [process_wildcards("a {x|y} b", 0)] returns ["a x b"] or
    ["a y b"] and nothing else, and every run of that call returns the same
    one of the two. *)
Theorem process_wildcards_example_xy :
  exists out : str,
    (out = py "a x b" \/ out = py "a y b") /\
    process_wildcards (VStr (py "a {x|y} b")) (VInt 0) = Some (Ok out) /\
    forall fuel r,
      process_wildcards_fuel fuel (VStr (py "a {x|y} b")) (VInt 0) = Some r ->
      r = Ok out.
Proof.
  assert (Hrun : exists out : str,
            (out = py "a x b" \/ out = py "a y b") /\
            process_wildcards (VStr (py "a {x|y} b")) (VInt 0) = Some (Ok out)).
  { set (p := py "a {x|y} b").
    set (mt := {| m_start := 2; m_group := py "{x|y}" |}).
    assert (Hbody : exists g',
              loop_body (Random 0) p mt = Next g' (py "a x b") \/
              loop_body (Random 0) p mt = Next g' (py "a y b")).
    { unfold loop_body.
      assert (E1 : getslice (m_group mt) 1 (-1) 1 = Ok (py "x|y")) by reflexivity.
      assert (E2 : str_split (py "x|y") [pipe] = Ok [py "x"; py "y"]) by reflexivity.
      rewrite E1, E2. cbn [length Z.of_nat].
      pose proof (randint_range (Random 0) 0 (Z.of_nat 2 - 1)) as Hrange.
      destruct (randint (Random 0) 0 (Z.of_nat 2 - 1)) as [i g'].
      cbn [fst] in Hrange. exists g'.
      assert (Hi : i = 0%Z \/ i = 1%Z) by lia.
      destruct Hi as [-> | ->]; [left|right]; reflexivity. }
    destruct Hbody as (g' & [Hb|Hb]).
    - exists (py "a x b"). split; [by left|].
      change (process_wildcards (VStr p) (VInt 0))
        with (match loop_body (Random 0) p mt with
              | Again => resolve_loop 8 (Random 0) p (Some mt)
              | Fail e => Some (Raise e)
              | Next g1 p1 => resolve_loop 8 g1 p1 (search p1)
              end).
      rewrite Hb. reflexivity.
    - exists (py "a y b"). split; [by right|].
      change (process_wildcards (VStr p) (VInt 0))
        with (match loop_body (Random 0) p mt with
              | Again => resolve_loop 8 (Random 0) p (Some mt)
              | Fail e => Some (Raise e)
              | Next g1 p1 => resolve_loop 8 g1 p1 (search p1)
              end).
      rewrite Hb. reflexivity. }
  destruct Hrun as (out & Hcases & Hout).
  exists out. split; [done|]. split; [done|].
  intros fuel r Hr. symmetry.
  exact (process_wildcards_fuel_agree _ _ _ _ _ _ Hout Hr).
Qed.

(** C9. In every pass of the loop the interior of the matched group is
    non-empty and splits on [|] into at least one option, the drawn index
    lies within the options, and the selection succeeds: the pass neither
    takes the [continue] branch nor raises. The pattern does not match
    [{}], and a split never yields an empty list, whatever the text. *)
Theorem loop_body_options_nonempty (g : rng) (prompt : str) (mt : Match) :
  search prompt = Some mt ->
  (exists interior ops i g' pick,
     getslice (m_group mt) 1 (-1) 1 = Ok interior /\
     interior <> [] /\
     str_split interior [pipe] = Ok ops /\
     1 <= length ops /\
     randint g 0 (Z.of_nat (length ops) - 1) = (i, g') /\
     (0 <= i < Z.of_nat (length ops))%Z /\
     getitem ops i = Ok pick /\
     exists prompt', loop_body g prompt mt = Next g' prompt') /\
  loop_body g prompt mt <> Again /\
  (forall e, loop_body g prompt mt <> Fail e) /\
  search (py "{}") = None /\
  (forall text, exists o ops, str_split text [pipe] = Ok (o :: ops)).
Proof.
  intros Hs.
  destruct (loop_body_on_match g prompt mt Hs)
    as (pre & body & post & ops & i & g' & pick & _ & _ & Hne & _ & Hsl &
        Hsp & Hr & Hi & Hget & _ & _ & Hbody).
  split; [|split; [|split; [|split]]].
  - exists body, ops, i, g', pick. repeat split; try done; try lia.
    by eexists.
  - by rewrite Hbody.
  - intros e. by rewrite Hbody.
  - reflexivity.
  - intros text. cbn [str_split].
    pose proof (split_go_nonempty [pipe] 0 text) as Hn.
    destruct (split_go [pipe] 0 text) as [|o ops']; [done|]. by eexists _, _.
Qed.

End ResolverFacts.

(** ** The resolver on the reference generator *)

Lemma process_wildcards_deterministic_witness :
  exists out : str,
    @process_wildcards lcg (VStr (py "a {x|y} b")) (VInt 0) = Some (Ok out) /\
    (forall fuel r,
        @process_wildcards_fuel lcg fuel (VStr (py "a {x|y} b")) (VInt 0)
        = Some r -> r = Ok out) /\
    @resolve_loop lcg (length (str_of (VStr (py "a {x|y} b"))))
      (Random (int_of (VInt 0))) (str_of (VStr (py "a {x|y} b")))
      (search (str_of (VStr (py "a {x|y} b")))) = Some (Ok out) /\
    (forall kwargs w r w',
        @execute lcg (VStr (py "a {x|y} b")) (VInt 0) kwargs w
        = Some (Ok r, w') -> r = out).
Proof.
  apply (@process_wildcards_deterministic lcg); reflexivity.
Defined.

(** Resolving the inner group of [{{a|b}}] leaves [{b}]: one group before
    the pass, one group after it. *)
Lemma group_count_not_decreasing :
  search (py "{{a|b}}") = Some {| m_start := 1; m_group := py "{a|b}" |} /\
  count_groups (py "{{a|b}}") = 1 /\
  @loop_body lcg (Random 0) (py "{{a|b}}")
    {| m_start := 1; m_group := py "{a|b}" |}
  = @Next lcg (lcg_next 0) (py "{b}") /\
  count_groups (py "{b}") = 1 /\
  count_groups (replace_once (py "{{a|b}}") (py "{a|b}") (py "a")) = 1 /\
  @process_wildcards lcg (VStr (py "{{a|b}}")) (VInt 0) = Some (Ok (py "b")).
Proof. repeat split; vm_compute; reflexivity. Qed.

Lemma process_wildcards_no_group_witness :
  @process_wildcards lcg (VStr (py "a plain {} prompt }{")) (VBool true)
  = Some (Ok (str_of (VStr (py "a plain {} prompt }{")))).
Proof.
  apply (@process_wildcards_no_group lcg); [reflexivity..|].
  apply search_None_iff. reflexivity.
Defined.

Lemma loop_body_options_nonempty_witness :
  (exists interior ops i g' pick,
     getslice (py "{x|y}") 1 (-1) 1 = Ok interior /\
     interior <> [] /\
     str_split interior [pipe] = Ok ops /\
     1 <= length ops /\
     @randint lcg (Random 7) 0 (Z.of_nat (length ops) - 1) = (i, g') /\
     (0 <= i < Z.of_nat (length ops))%Z /\
     getitem ops i = Ok pick /\
     exists prompt',
       @loop_body lcg (Random 7) (py "a {x|y} b")
         {| m_start := 2; m_group := py "{x|y}" |} = Next g' prompt') /\
  @loop_body lcg (Random 7) (py "a {x|y} b")
    {| m_start := 2; m_group := py "{x|y}" |} <> Again /\
  (forall e, @loop_body lcg (Random 7) (py "a {x|y} b")
               {| m_start := 2; m_group := py "{x|y}" |} <> Fail e) /\
  search (py "{}") = None /\
  (forall text, exists o ops, str_split text [pipe] = Ok (o :: ops)).
Proof.
  apply (@loop_body_options_nonempty lcg (Random 7) (py "a {x|y} b")
           {| m_start := 2; m_group := py "{x|y}" |}).
  reflexivity.
Defined.

(** ** The window slice *)

Lemma slice_length_nonneg (start stop step : Z) :
  (0 < step)%Z -> (0 <= slice_length start stop step)%Z.
Proof.
  intros Hstep. unfold slice_length.
  destruct (Z.ltb_spec step 0); [lia|].
  destruct (Z.ltb_spec start stop); [|lia].
  pose proof (Z.div_pos (stop - start - 1) step). lia.
Qed.

Lemma slice_length_empty (start stop step : Z) :
  (0 < step)%Z -> (stop <= start)%Z -> slice_length start stop step = 0%Z.
Proof.
  intros Hstep Hle. unfold slice_length.
  destruct (Z.ltb_spec step 0); [lia|].
  destruct (Z.ltb_spec start stop); [lia|done].
Qed.

(** A slice that is not empty has its first item and then the slice that
    starts one step further. *)
Lemma slice_length_next (start stop step : Z) :
  (0 < step)%Z -> (start < stop)%Z ->
  slice_length start stop step = (1 + slice_length (start + step) stop step)%Z.
Proof.
  intros Hstep Hlt. unfold slice_length.
  destruct (Z.ltb_spec step 0); [lia|].
  destruct (Z.ltb_spec start stop); [|lia].
  destruct (Z.ltb_spec (start + step) stop).
  - replace (stop - start - 1)%Z with (stop - (start + step) - 1 + 1 * step)%Z by lia.
    rewrite Z.div_add by lia. lia.
  - rewrite Z.div_small by lia. lia.
Qed.

Lemma stride_items_window {A} (l : list A) (step stop : Z) (count : nat) :
  (0 < step)%Z ->
  forall cur : Z, (0 <= cur)%Z ->
  stop = Z.min (cur + Z.of_nat count * step) (Z.of_nat (length l)) ->
  stride_items l cur step (Z.to_nat (slice_length cur stop step))
  = window l (Z.to_nat cur) (Z.to_nat step) count.
Proof.
  intros Hstep. induction count as [|count IH]; intros cur Hcur Hstop.
  - rewrite slice_length_empty by lia. done.
  - cbn [window].
    destruct (l !! Z.to_nat cur) as [x|] eqn:Hx.
    + pose proof (lookup_lt_Some _ _ _ Hx) as Hlt.
      rewrite slice_length_next by lia.
      pose proof (slice_length_nonneg (cur + step) stop step Hstep).
      rewrite Z2Nat.inj_add by lia. change (Z.to_nat 1) with 1.
      cbn [Nat.add stride_items]. unfold item_at.
      destruct (Z.ltb_spec cur 0); [lia|].
      rewrite Hx, IH by lia. rewrite Z2Nat.inj_add by lia. done.
    + apply lookup_ge_None in Hx.
      rewrite slice_length_empty by lia. done.
Qed.

(** With a start that is not negative and a positive stride, the slice of
    the source is the window of the specification. *)
Lemma getslice_window {A} (l : list A) (start skip count : Z) :
  (0 <= start)%Z -> (0 <= skip)%Z -> (0 <= count)%Z ->
  getslice l start (start + count * (skip + 1))%Z (skip + 1)%Z
  = Ok (window l (Z.to_nat start) (S (Z.to_nat skip)) (Z.to_nat count)).
Proof.
  intros Hstart Hskip Hcount. unfold getslice.
  destruct (Z.eqb_spec (skip + 1) 0); [lia|]. f_equal.
  set (len := Z.of_nat (length l)).
  set (stop := (start + count * (skip + 1))%Z).
  assert (Hstop : (start <= stop)%Z) by (unfold stop; nia).
  assert (Hadj : adjust_bound len (skip + 1) stop = Z.min stop len).
  { unfold adjust_bound.
    destruct (Z.ltb_spec stop 0); [lia|].
    destruct (Z.leb_spec len stop); [|lia].
    destruct (Z.ltb_spec (skip + 1) 0); lia. }
  rewrite Hadj. unfold adjust_bound.
  destruct (Z.ltb_spec start 0); [lia|].
  replace (S (Z.to_nat skip)) with (Z.to_nat (skip + 1)) by lia.
  destruct (Z.leb_spec len start).
  - destruct (Z.ltb_spec (skip + 1) 0); [lia|].
    rewrite slice_length_empty by lia.
    destruct (Z.to_nat count) as [|c]; [done|]. cbn [window].
    rewrite (proj2 (lookup_ge_None l (Z.to_nat start))); [done|].
    unfold len in *. lia.
  - apply stride_items_window.
    + lia.
    + lia.
    + unfold stop. rewrite Z2Nat.id by lia. done.
Qed.

(** The item of a window at each position. *)
Lemma window_lookup {A} (l : list A) (start stride count k : nat) :
  window l start stride count !! k
  = if decide (k < count) then l !! (start + k * stride) else None.
Proof.
  revert start k. induction count as [|count IH]; intros start k.
  - cbn [window]. rewrite lookup_nil. destruct (decide (k < 0)); [lia|done].
  - cbn [window]. destruct (l !! start) as [x|] eqn:Hx.
    + destruct k as [|k].
      * cbn. by rewrite Nat.add_0_r.
      * cbn [lookup list_lookup]. rewrite IH.
        replace (start + stride + k * stride) with (start + S k * stride) by lia.
        destruct (decide (k < count)), (decide (S k < S count)); (done || lia).
    + rewrite lookup_nil. destruct (decide (k < S count)); [|done].
      symmetry. apply lookup_ge_None. apply lookup_ge_None in Hx. lia.
Qed.

Lemma window_length {A} (l : list A) (start stride count : nat) :
  length (window l start stride count) <= count.
Proof.
  revert start. induction count as [|count IH]; intros start; [done|].
  cbn [window]. destruct (l !! start); cbn [length]; [|lia].
  specialize (IH (start + stride)). lia.
Qed.

Lemma window_beyond {A} (l : list A) (start stride count : nat) :
  length l <= start -> window l start stride count = [].
Proof.
  intros Hle. destruct count as [|count]; [done|]. cbn [window].
  by rewrite (proj2 (lookup_ge_None l start) Hle).
Qed.

(** The kept segments are those of the split whose trimmed form is not
    empty, as they are and in their order. *)
Lemma kept_segments (lines : list str) :
  let kept := List.filter (fun line => truthy (strip line)) lines in
  kept `sublist_of` lines /\
  forall line, line ∈ kept <-> line ∈ lines /\ strip line <> [].
Proof.
  cbv zeta. split.
  - induction lines as [|line lines IH]; [constructor|].
    cbn [List.filter]. destruct (truthy (strip line)); by constructor.
  - intros line. rewrite !list_elem_of_In, filter_In.
    destruct (strip line); cbn [truthy]; intuition congruence.
Qed.

(** ** SpotlessTextSplitByDelimiter.run *)

Section SplitterFacts.
Context {U : UnicodeNames}.

(** A delimiter of ASCII characters with no backslash decodes to itself. *)
Lemma unicode_escape_plain (s : str) :
  Forall (fun c => (c < 128)%N /\ c <> backslash) s ->
  unicode_escape_decode s = Ok s.
Proof.
  intros Hs. unfold unicode_escape_decode.
  assert (Henc : utf8_encode s = Ok s).
  { induction Hs as [|c s [Hc _] _ IH]; [done|].
    cbn [utf8_encode]. unfold utf8_encode_char.
    destruct (N.ltb_spec c 128); [|lia]. by rewrite IH. }
  rewrite Henc. change (escape_decode 0 s = Ok s). clear Henc.
  induction Hs as [|c s [_ Hc] _ IH]; [done|].
  cbn [escape_decode]. unfold escape_at.
  destruct (N.eqb_spec c backslash); [done|]. cbn [negb]. by rewrite IH.
Qed.

(** C3, as the code has it. For every text and every non-empty delimiter
    that the [unicode_escape] codec decodes to a non-empty separator, and
    for window parameters that are not negative, [run] splits the text on
    the decoded separator, keeps the segments whose trimmed form is not
    empty (un-trimmed, in their order) and returns the items of the kept
    sequence at the indices [start_index + k * (skip_every + 1)], at most
    [max_count] of them; a [start_index] beyond the end gives the empty
    sequence. The two examples of the specification hold. *)
Theorem run_window (text delimiter sep : str)
    (start_index skip_every max_count : Z) :
  delimiter <> [] ->
  unicode_escape_decode delimiter = Ok sep -> sep <> [] ->
  (0 <= start_index)%Z -> (0 <= skip_every)%Z -> (0 <= max_count)%Z ->
  (exists lines kept out,
     str_split text sep = Ok lines /\
     kept = List.filter (fun line => truthy (strip line)) lines /\
     kept `sublist_of` lines /\
     (forall line, line ∈ kept <-> line ∈ lines /\ strip line <> []) /\
     run text delimiter start_index skip_every max_count = Ok out /\
     out = window kept (Z.to_nat start_index) (S (Z.to_nat skip_every))
             (Z.to_nat max_count) /\
     (forall k : nat,
        out !! k =
        if decide (k < Z.to_nat max_count)
        then kept !! (Z.to_nat start_index + k * S (Z.to_nat skip_every))
        else None) /\
     length out <= Z.to_nat max_count /\
     (length kept <= Z.to_nat start_index -> out = [])) /\
  run (py "a,,b,c") (py ",") 0 0 10 = Ok [py "a"; py "b"; py "c"] /\
  run (py "a,b,c,d,e") (py ",") 1 1 2 = Ok [py "b"; py "d"].
Proof.
  intros Hdel Hdec Hsep Hstart Hskip Hmax.
  split; [|split; reflexivity].
  pose (lines := split_go sep 0 text).
  pose (kept := List.filter (fun line => truthy (strip line)) lines).
  exists lines, kept,
    (window kept (Z.to_nat start_index) (S (Z.to_nat skip_every))
       (Z.to_nat max_count)).
  destruct (kept_segments lines) as [Hsub Hin].
  split; [|split; [|split; [|split; [|split; [|split; [|split; [|split]]]]]]].
  - by destruct sep.
  - done.
  - done.
  - done.
  - unfold run, segments. destruct delimiter as [|c delimiter]; [done|].
    rewrite Hdec. destruct sep as [|a sep]; [done|]. cbn [str_split].
    by apply getslice_window.
  - done.
  - intros k. apply window_lookup.
  - apply window_length.
  - apply window_beyond.
Qed.

(** C4, as the code has it. With the empty delimiter the list is the
    trimmed text alone, and the window is applied to it as to any other:
    for [start_index = 0] (with [skip_every >= 0] and [max_count >= 1])
    [run] returns the one-element sequence of the trimmed text, and for a
    larger [start_index] the empty sequence. In particular
    [split("x", "", 0, 0, 1) = ["x"]]. *)
Theorem run_empty_delimiter (text : str) (start_index skip_every max_count : Z) :
  (0 <= start_index)%Z -> (0 <= skip_every)%Z -> (1 <= max_count)%Z ->
  run text [] start_index skip_every max_count
  = Ok (if (start_index =? 0)%Z then [strip text] else []) /\
  run (py "x") [] 0 0 1 = Ok [py "x"].
Proof.
  intros Hstart Hskip Hmax. split; [|reflexivity].
  unfold run, segments. rewrite getslice_window by lia. f_equal.
  destruct (Z.to_nat max_count) as [|count] eqn:Hc; [lia|].
  cbn [window]. destruct (Z.eqb_spec start_index 0) as [->|Hne].
  - cbn. by rewrite window_beyond by (cbn; lia).
  - destruct (Z.to_nat start_index) as [|n] eqn:Hn; [lia|]. done.
Qed.

End SplitterFacts.

(** ** The splitter on the sample table *)

Lemma run_window_witness :
  (exists lines kept out,
     str_split (py "a,b,c,d,e") (py ",") = Ok lines /\
     kept = List.filter (fun line => truthy (strip line)) lines /\
     kept `sublist_of` lines /\
     (forall line, line ∈ kept <-> line ∈ lines /\ strip line <> []) /\
     @run sample_names (py "a,b,c,d,e") (py ",") 1 1 2 = Ok out /\
     out = window kept (Z.to_nat 1) (S (Z.to_nat 1)) (Z.to_nat 2) /\
     (forall k : nat,
        out !! k =
        if decide (k < Z.to_nat 2)
        then kept !! (Z.to_nat 1 + k * S (Z.to_nat 1))
        else None) /\
     length out <= Z.to_nat 2 /\
     (length kept <= Z.to_nat 1 -> out = [])) /\
  @run sample_names (py "a,,b,c") (py ",") 0 0 10
  = Ok [py "a"; py "b"; py "c"] /\
  @run sample_names (py "a,b,c,d,e") (py ",") 1 1 2 = Ok [py "b"; py "d"].
Proof.
  apply (@run_window sample_names (py "a,b,c,d,e") (py ",") (py ",") 1 1 2);
    (done || reflexivity || lia).
Defined.

(** A lone backslash is a delimiter that is not empty, and [run] raises on
    it; so it does on a backslash followed by a line feed, which decodes
    to the empty separator. *)
Lemma run_backslash_delimiter :
  @run sample_names (py "a,b") [backslash] 0 0 10
  = Raise (UnicodeDecodeError "\ at end of string") /\
  @run sample_names (py "a,b") [backslash; 10%N] 0 0 10
  = Raise (ValueError "empty separator").
Proof. split; reflexivity. Qed.

Lemma run_empty_delimiter_witness :
  @run sample_names (py "  a b ") [] 0 2 5
  = Ok (if (0 =? 0)%Z then [strip (py "  a b ")] else []) /\
  @run sample_names (py "x") [] 0 0 1 = Ok [py "x"].
Proof.
  apply (@run_empty_delimiter sample_names (py "  a b ") 0 2 5); lia.
Defined.

(** With the empty delimiter and [start_index = 1] the result is empty,
    not the trimmed text. *)
Lemma run_empty_delimiter_offset :
  @run sample_names (py "x") [] 1 0 1 = Ok [].
Proof. reflexivity. Qed.

(** ** Facts about the store of dictionaries *)

Lemma cell_store (h : heap) (l : loc) (k : key) (v : val) (l' : loc) (k' : key) :
  cell (dict_store h l k v) l' k'
  = if decide (l' = l /\ k' = k) then Some v else cell h l' k'.
Proof.
  unfold cell, dict_store, deref.
  destruct (decide (l' = l)) as [->|Hl].
  - rewrite lookup_insert_eq.
    change (default ∅ (Some ?m)) with m.
    destruct (decide (k' = k)) as [->|Hk].
    + rewrite lookup_insert_eq. by rewrite decide_True.
    + rewrite lookup_insert_ne by done. rewrite decide_False by tauto. done.
  - rewrite lookup_insert_ne by done. rewrite decide_False by tauto. done.
Qed.

(** A new dictionary is empty, and making it changes no entry. *)
Lemma cell_new (h : heap) (l' : loc) (k' : key) :
  cell (snd (dict_new h)) l' k' = cell h l' k' /\
  cell h (fst (dict_new h)) k' = None.
Proof.
  unfold dict_new, cell, deref. cbn [fst snd].
  assert (Hfresh : h !! fresh (dom h) = None).
  { apply not_elem_of_dom. apply is_fresh. }
  split.
  - destruct (decide (l' = fresh (dom h))) as [->|Hne].
    + by rewrite lookup_insert_eq, Hfresh.
    + by rewrite lookup_insert_ne.
  - by rewrite Hfresh.
Qed.

(** [ensure_dict] leaves an entry that is there as it is, makes the one
    that is missing, and touches no other. *)
Lemma cell_ensure_dict (h : heap) (l : loc) (k : key) (l' : loc) (k' : key) :
  cell (ensure_dict h l k) l' k'
  = if decide (l' = l /\ k' = k)
    then Some (default (VDict (fresh (dom h))) (cell h l k))
    else cell h l' k'.
Proof.
  unfold ensure_dict, dict_contains.
  destruct (cell h l k) as [v|] eqn:Hc.
  - rewrite bool_decide_eq_true_2 by eauto. cbn [default].
    destruct (decide (l' = l /\ k' = k)) as [[-> ->]|]; done.
  - rewrite bool_decide_eq_false_2 by (intros [? ?]; done).
    change (dict_new h) with (fresh (dom h), snd (dict_new h)).
    cbv beta iota. rewrite cell_store. cbn [default].
    destruct (decide (l' = l /\ k' = k)); [done|].
    apply cell_new.
Qed.

Lemma dict_get_cell (h : heap) (l : loc) (k : key) (v : val) :
  cell h l k = Some v -> dict_get h l k = v /\ dict_getitem h l k = Ok v.
Proof. unfold dict_get, dict_getitem. by intros ->. Qed.

Lemma dict_get_dict (h : heap) (l : loc) (k : key) (x : loc) :
  dict_get h l k = VDict x -> cell h l k = Some (VDict x).
Proof. unfold dict_get. destruct (cell h l k); cbn; congruence. Qed.

Lemma with_heap_same (w : world) : with_heap (w_heap w) w = w.
Proof. by destruct w. Qed.

Lemma k_namespace_extra : k_namespace <> k_extra.
Proof. discriminate. Qed.

(** ** The persistence step of execute *)


(** What the step does when every level is a dictionary: the two levels
    are made where missing and the result is stored. *)
Lemma save_metadata_write (unique_id : val) (prompt : str) (w : world)
    (k : key) (pl wl el nl : loc) :
  unique_id <> VNone -> to_key unique_id = Ok k ->
  cell (w_heap w) pl k_workflow = Some (VDict wl) ->
  cell (ensure_dict (w_heap w) wl k_extra) wl k_extra = Some (VDict el) ->
  cell (ensure_dict (ensure_dict (w_heap w) wl k_extra) el k_namespace)
    el k_namespace = Some (VDict nl) ->
  save_metadata unique_id (VDict pl) prompt w
  = (Ok tt,
     with_heap
       (dict_store
          (ensure_dict (ensure_dict (w_heap w) wl k_extra) el k_namespace)
          nl k (VStr prompt)) w).
Proof.
  intros Hid Hk Hwf He Hn. unfold save_metadata.
  destruct unique_id; try done; cbn [is_none negb];
    destruct (dict_get_cell _ _ _ _ Hwf) as [-> _];
    destruct (dict_get_cell _ _ _ _ He) as [-> ->];
    destruct (dict_get_cell _ _ _ _ Hn) as [-> ->];
    by rewrite Hk.
Qed.


Lemma ensure_dict_present (h : heap) (l : loc) (k : key) (v : val) :
  cell h l k = Some v -> ensure_dict h l k = h.
Proof.
  intros Hc. unfold ensure_dict, dict_contains.
  by rewrite bool_decide_eq_true_2 by eauto.
Qed.


Lemma save_metadata_workflow (unique_id : val) (pl : loc) (prompt : str)
    (w : world) :
  unique_id <> VNone ->
  isinstance_dict (dict_get (w_heap w) pl k_workflow) = false ->
  save_metadata unique_id (VDict pl) prompt w
  = (Ok tt, print SayWorkflowMissing w).
Proof.
  intros Hid Hwf. unfold save_metadata.
  destruct unique_id; try done; cbn [is_none negb];
    by destruct (dict_get (w_heap w) pl k_workflow).
Qed.

Lemma save_metadata_extra (unique_id : val) (pl wl : loc) (v : val)
    (prompt : str) (w : world) :
  unique_id <> VNone ->
  dict_get (w_heap w) pl k_workflow = VDict wl ->
  cell (w_heap w) wl k_extra = Some v -> isinstance_dict v = false ->
  save_metadata unique_id (VDict pl) prompt w
  = (Ok tt, print SayExtraNotDict w).
Proof.
  intros Hid Hwf He Hv. unfold save_metadata. rewrite Hwf.
  rewrite (ensure_dict_present _ _ _ _ He).
  destruct (dict_get_cell _ _ _ _ He) as [-> _]. rewrite with_heap_same.
  destruct unique_id; try done; cbn [is_none negb]; by destruct v.
Qed.

Lemma save_metadata_namespace (unique_id : val) (pl wl el : loc) (v : val)
    (prompt : str) (w : world) :
  unique_id <> VNone ->
  dict_get (w_heap w) pl k_workflow = VDict wl ->
  cell (w_heap w) wl k_extra = Some (VDict el) ->
  cell (w_heap w) el k_namespace = Some v -> isinstance_dict v = false ->
  save_metadata unique_id (VDict pl) prompt w
  = (Ok tt, print SayNamespaceNotDict w).
Proof.
  intros Hid Hwf He Hn Hv. unfold save_metadata. rewrite Hwf.
  rewrite (ensure_dict_present _ _ _ _ He).
  destruct (dict_get_cell _ _ _ _ He) as [-> ->].
  rewrite (ensure_dict_present _ _ _ _ Hn).
  destruct (dict_get_cell _ _ _ _ Hn) as [-> _]. rewrite with_heap_same.
  destruct unique_id; try done; cbn [is_none negb]; by destruct v.
Qed.

(** ** StableWildcard.execute *)

Section ExecuteFacts.
Context {P : PRNG}.




End ExecuteFacts.

(** ** execute on the sample world *)




(** * Further properties *)

(** ** More about the resolver *)

Lemma split_go_no_sep (c : N) (s : str) :
  c ∉ s -> split_go [c] 0 s = [s].
Proof.
  induction s as [|a s IH]; intros Hc; [done|].
  apply not_elem_of_cons in Hc as [Hne Hc].
  cbn [split_go is_prefix]. destruct (N.eqb_spec c a) as [->|_]; [done|].
  cbn [andb]. by rewrite IH.
Qed.

Lemma cons_head_sublist (c : N) (s : str) (segs : list str) :
  Forall (fun seg => seg `sublist_of` s) segs ->
  Forall (fun seg => seg `sublist_of` c :: s) (cons_head c segs).
Proof.
  intros Hs. destruct segs as [|seg rest]; cbn.
  - repeat constructor. apply sublist_nil_l.
  - inversion Hs; subst. constructor; [by constructor|].
    eapply Forall_impl; [done|]. intros x Hx. by constructor.
Qed.

(** Every segment of a split is the text with characters left out. *)
Lemma split_go_sublist (sep : str) (skip : nat) (s : str) :
  Forall (fun seg => seg `sublist_of` s) (split_go sep skip s).
Proof.
  revert skip. induction s as [|c s IH]; intros skip.
  - by repeat constructor.
  - cbn [split_go]. destruct skip as [|k].
    + destruct (is_prefix sep (c :: s)).
      * constructor; [apply sublist_nil_l|].
        eapply Forall_impl; [apply IH|]. intros x Hx. by constructor.
      * apply cons_head_sublist, IH.
    + eapply Forall_impl; [apply IH|]. intros x Hx. by constructor.
Qed.

Lemma nonbrace_not_lbrace (c : N) : nonbrace c -> (c =? lbrace)%N = false.
Proof. unfold nonbrace, is_brace. by destruct (c =? lbrace)%N. Qed.

Lemma match_here_nonbrace (c : N) (s : str) :
  nonbrace c -> match_here (c :: s) = None.
Proof. intros Hc. cbn. by rewrite (nonbrace_not_lbrace _ Hc). Qed.

(** Before a group there is only text without braces: the search finds
    that group, and the replacement rewrites it where it stands. *)
Lemma search_from_first_group (pos : nat) (pre g post : str) :
  Forall nonbrace pre -> is_group g ->
  search_from pos (pre ++ g ++ post)
  = Some {| m_start := pos + length pre; m_group := g |} /\
  forall new, replace_once (pre ++ g ++ post) g new = pre ++ new ++ post.
Proof.
  intros Hpre Hg. revert pos.
  destruct g as [|a g'].
  { destruct Hg as (body & Hb & _). done. }
  assert (Ha : a = lbrace).
  { destruct Hg as (body & Hb & _). by injection Hb. }
  induction Hpre as [|c pre Hc _ IH]; intros pos.
  - cbn [app length]. rewrite Nat.add_0_r. split.
    + cbn [search_from].
      change (a :: g' ++ post) with ((a :: g') ++ post).
      by rewrite (match_here_group _ _ Hg).
    + intros new. cbn [replace_once].
      change (a :: g' ++ post) with ((a :: g') ++ post).
      by rewrite is_prefix_app, drop_app_length.
  - destruct (IH (S pos)) as [IHs IHr]. split.
    + cbn [app search_from]. rewrite (match_here_nonbrace _ _ Hc).
      change (pre ++ a :: g' ++ post) with (pre ++ (a :: g') ++ post).
      rewrite IHs. cbn [length]. do 2 f_equal. lia.
    + intros new. cbn [app replace_once].
      assert (Hp : is_prefix (a :: g') (c :: pre ++ a :: g' ++ post) = false).
      { rewrite Ha. cbn [is_prefix].
        rewrite N.eqb_sym, (nonbrace_not_lbrace _ Hc). done. }
      rewrite Hp.
      change (pre ++ a :: g' ++ post) with (pre ++ (a :: g') ++ post).
      by rewrite IHr.
Qed.

(** A text without braces holds no group. *)
Lemma search_nonbrace (s : str) : Forall nonbrace s -> search s = None.
Proof.
  intros Hs. apply search_None_iff. intros (pre & g & post & -> & Hg).
  destruct Hg as (body & -> & _).
  apply Forall_app in Hs as [_ Hs]. apply Forall_app in Hs as [Hs _].
  by inversion Hs.
Qed.

Section ResolverMore.
Context {P : PRNG}.

(** One pass, told by what [str.replace] is called with. *)
Lemma loop_body_pick (g : rng) (prompt : str) (mt : Match) :
  search prompt = Some mt ->
  exists body g' pick,
    m_group mt = lbrace :: body ++ [rbrace] /\
    Forall nonbrace body /\
    pick ∈ split_go [pipe] 0 body /\
    loop_body g prompt mt = Next g' (replace_once prompt (m_group mt) pick).
Proof.
  intros Hs.
  destruct (loop_body_on_match g prompt mt Hs)
    as (pre & body & post & ops & i & g' & pick & _ & Hg & _ & Hb & Hsl &
        Hsp & Hr & _ & Hget & Hin & _ & _).
  exists body, g', pick. repeat split; [done..| |].
  - cbn in Hsp. by injection Hsp as <-.
  - unfold loop_body. rewrite Hsl, Hsp.
    destruct ops as [|o ops']; [by apply elem_of_nil in Hin|].
    by rewrite Hr, Hget.
Qed.

Lemma resolve_loop_sublist (fuel : nat) (g : rng) (prompt out : str) :
  resolve_loop fuel g prompt (search prompt) = Some (Ok out) ->
  out `sublist_of` prompt.
Proof.
  revert g prompt. induction fuel as [|fuel IH]; intros g prompt H.
  - destruct (search prompt); [done|]. by injection H as <-.
  - destruct (search prompt) as [mt|] eqn:Hs; [|by injection H as <-].
    cbn [resolve_loop] in H.
    destruct (search_Some _ _ Hs) as (pre & post & Hp & _ & _ & Hrep).
    destruct (loop_body_pick g prompt mt Hs)
      as (body & g' & pick & Hg & _ & Hin & Hbody).
    rewrite Hbody, Hrep in H. apply IH in H.
    etrans; [exact H|]. rewrite Hp, Hg.
    apply sublist_app; [done|]. apply sublist_app; [|done].
    apply sublist_cons, sublist_inserts_r.
    pose proof (split_go_sublist [pipe] 0 body) as Hall.
    rewrite Forall_forall in Hall. by apply Hall.
Qed.

Lemma resolve_loop_no_pipe (fuel : nat) (g1 g2 : rng) (prompt : str) :
  pipe ∉ prompt ->
  resolve_loop fuel g1 prompt (search prompt)
  = resolve_loop fuel g2 prompt (search prompt).
Proof.
  revert g1 g2 prompt.
  induction fuel as [|fuel IH]; intros g1 g2 prompt Hno; [done|].
  destruct (search prompt) as [mt|] eqn:Hs; [|done].
  cbn [resolve_loop].
  destruct (search_Some _ _ Hs) as (pre & post & Hp & _ & _ & Hrep).
  destruct (loop_body_pick g1 prompt mt Hs)
    as (body & g1' & pick1 & Hg & _ & Hin1 & Hbody1).
  destruct (loop_body_pick g2 prompt mt Hs)
    as (body2 & g2' & pick2 & Hg2 & _ & Hin2 & Hbody2).
  assert (body2 = body) as ->.
  { rewrite Hg in Hg2. injection Hg2 as Hg2. by apply app_inv_tail in Hg2. }
  assert (Hnb : pipe ∉ body).
  { intros Hin. apply Hno. rewrite Hp, Hg. set_solver. }
  rewrite (split_go_no_sep _ _ Hnb) in Hin1, Hin2.
  apply list_elem_of_singleton in Hin1 as ->.
  apply list_elem_of_singleton in Hin2 as ->.
  rewrite Hbody1, Hbody2, Hrep. apply IH.
  intros Hin. apply Hno. rewrite Hp, Hg.
  rewrite !elem_of_app in Hin. rewrite !elem_of_app, elem_of_cons, elem_of_app.
  tauto.
Qed.

(** X1. What [process_wildcards] returns holds no wildcard group, and
    resolving it again, with any integer seed, gives it back unchanged. *)
Theorem process_wildcards_idempotent (prompt seed seed' : val) (out : str) :
  process_wildcards prompt seed = Some (Ok out) ->
  isinstance_int seed' = true ->
  ~ has_group out /\
  process_wildcards (VStr out) seed' = Some (Ok out).
Proof.
  intros Hout Hs'.
  destruct (isinstance_cases prompt seed) as [[Hp Hs]|Hbad].
  - destruct (process_wildcards_returns prompt seed Hp Hs) as (out' & Hout' & Hfree).
    assert (out' = out) as -> by congruence.
    split; [by apply search_None_iff|].
    unfold process_wildcards, process_wildcards_fuel.
    rewrite (check_args_valid (VStr out) seed' eq_refl Hs').
    cbn [str_of]. rewrite Hfree. by destruct (length out).
  - destruct (check_args_invalid _ _ Hbad) as [msg Hmsg].
    unfold process_wildcards, process_wildcards_fuel in Hout.
    by rewrite Hmsg in Hout.
Qed.

(** X2. A prompt without the character [|] resolves to the same text for
    every integer seed: each group has one option, and the draw cannot
    choose. *)
Theorem process_wildcards_seed_irrelevant (prompt : str) (seed seed' : val) :
  pipe ∉ prompt ->
  isinstance_int seed = true -> isinstance_int seed' = true ->
  process_wildcards (VStr prompt) seed = process_wildcards (VStr prompt) seed'.
Proof.
  intros Hno Hs Hs'. unfold process_wildcards, process_wildcards_fuel.
  rewrite (check_args_valid (VStr prompt) seed eq_refl Hs).
  rewrite (check_args_valid (VStr prompt) seed' eq_refl Hs').
  by apply resolve_loop_no_pipe.
Qed.

(** X3. A prompt with one group, [pre{o1|...|on}post] where [pre], the
    options and [post] hold no brace, resolves to [pre ++ o ++ post] for
    one of the options [o] of the group. *)
Theorem process_wildcards_single_group (pre body post : str) (seed : val) :
  Forall nonbrace pre -> Forall nonbrace body -> Forall nonbrace post ->
  body <> [] -> isinstance_int seed = true ->
  exists o,
    o ∈ split_go [pipe] 0 body /\
    process_wildcards (VStr (pre ++ (lbrace :: body ++ [rbrace]) ++ post)) seed
    = Some (Ok (pre ++ o ++ post)).
Proof.
  intros Hpre Hbody Hpost Hne Hs.
  set (g := lbrace :: body ++ [rbrace]).
  assert (Hg : is_group g) by (by exists body).
  destruct (search_from_first_group 0 pre g post Hpre Hg) as [Hsearch Hrep].
  set (mt := {| m_start := 0 + length pre; m_group := g |}) in *.
  destruct (loop_body_pick (Random (int_of seed)) (pre ++ g ++ post) mt Hsearch)
    as (body' & g' & pick & Hg' & _ & Hin & Hpass).
  assert (body' = body) as ->.
  { cbn in Hg'. injection Hg' as Hg'. by apply app_inv_tail in Hg'. }
  exists pick. split; [done|].
  destruct (process_wildcards_returns (VStr (pre ++ g ++ post)) seed eq_refl Hs)
    as (out & Hout & _).
  rewrite Hout. do 2 f_equal.
  unfold process_wildcards, process_wildcards_fuel in Hout.
  rewrite (check_args_valid (VStr (pre ++ g ++ post)) seed eq_refl Hs) in Hout.
  cbn [str_of] in Hout.
  fold (search (pre ++ g ++ post)) in Hsearch. rewrite Hsearch in Hout.
  destruct (length (pre ++ g ++ post)) as [|fuel]; [done|].
  cbn [resolve_loop] in Hout. rewrite Hpass, Hrep in Hout.
  assert (Hfree : search (pre ++ pick ++ post) = None).
  { apply search_nonbrace. rewrite !Forall_app. repeat split; [done| |done].
    pose proof (split_go_Forall nonbrace [pipe] 0 body Hbody) as Hall.
    rewrite Forall_forall in Hall. by apply Hall. }
  rewrite Hfree in Hout. destruct fuel; cbn in Hout; congruence.
Qed.

(** X4. The resolved text is the prompt with characters left out: the
    loop never inserts or reorders anything, so the output is no longer
    than the prompt. *)
Theorem process_wildcards_sublist (prompt seed : val) (out : str) :
  process_wildcards prompt seed = Some (Ok out) ->
  out `sublist_of` str_of prompt /\ length out <= length (str_of prompt).
Proof.
  intros Hout.
  assert (Hsub : out `sublist_of` str_of prompt).
  { unfold process_wildcards, process_wildcards_fuel in Hout.
    destruct (check_args prompt seed); [|done].
    by apply resolve_loop_sublist in Hout. }
  split; [done|]. by apply sublist_length.
Qed.

End ResolverMore.

(** ** More about the persistence step *)

Lemma k_workflow_extra : k_workflow <> k_extra.
Proof. discriminate. Qed.

Lemma k_workflow_namespace : k_workflow <> k_namespace.
Proof. discriminate. Qed.

Lemma dict_store_twice (h : heap) (l : loc) (k : key) (v : val) :
  dict_store (dict_store h l k v) l k v = dict_store h l k v.
Proof.
  unfold dict_store, deref. rewrite lookup_insert_eq.
  change (default ∅ (Some ?m)) with m.
  by rewrite !insert_insert_eq.
Qed.

(** The step reads nothing of the world but its dictionaries. *)
Lemma save_metadata_heap_only (unique_id png_info : val) (prompt : str)
    (w w' : world) :
  w_heap w' = w_heap w ->
  fst (save_metadata unique_id png_info prompt w')
  = fst (save_metadata unique_id png_info prompt w) /\
  w_heap (snd (save_metadata unique_id png_info prompt w'))
  = w_heap (snd (save_metadata unique_id png_info prompt w)).
Proof.
  destruct w as [h c], w' as [h' c']. cbn [w_heap]. intros ->.
  unfold save_metadata. cbn [w_heap].
  repeat case_match; done.
Qed.

(** When the three levels are dictionaries already, the step is the one
    store. *)
Lemma save_metadata_on_path (unique_id : val) (prompt : str) (w : world)
    (k : key) (pl wl el nl : loc) :
  unique_id <> VNone -> to_key unique_id = Ok k ->
  cell (w_heap w) pl k_workflow = Some (VDict wl) ->
  cell (w_heap w) wl k_extra = Some (VDict el) ->
  cell (w_heap w) el k_namespace = Some (VDict nl) ->
  save_metadata unique_id (VDict pl) prompt w
  = (Ok tt, with_heap (dict_store (w_heap w) nl k (VStr prompt)) w).
Proof.
  intros Hid Hk Hwf He Hn.
  rewrite (save_metadata_write unique_id prompt w k pl wl el nl Hid Hk Hwf).
  - by rewrite (ensure_dict_present _ _ _ _ He), (ensure_dict_present _ _ _ _ Hn).
  - by rewrite (ensure_dict_present _ _ _ _ He).
  - by rewrite (ensure_dict_present _ _ _ _ He), (ensure_dict_present _ _ _ _ Hn).
Qed.


(** What a step that returns has done: nothing to the dictionaries, or
    the store of the result after the two levels were made. *)
Lemma save_metadata_cases (unique_id png_info : val) (prompt : str)
    (w w1 : world) :
  save_metadata unique_id png_info prompt w = (Ok tt, w1) ->
  w_heap w1 = w_heap w \/
  exists k pl wl el nl,
    unique_id <> VNone /\ to_key unique_id = Ok k /\ png_info = VDict pl /\
    cell (w_heap w) pl k_workflow = Some (VDict wl) /\
    cell (ensure_dict (w_heap w) wl k_extra) wl k_extra = Some (VDict el) /\
    cell (ensure_dict (ensure_dict (w_heap w) wl k_extra) el k_namespace)
      el k_namespace = Some (VDict nl) /\
    w1 = with_heap
           (dict_store
              (ensure_dict (ensure_dict (w_heap w) wl k_extra) el k_namespace)
              nl k (VStr prompt)) w.
Proof.
  unfold save_metadata.
  destruct (is_none unique_id) eqn:Hid; cbn [negb];
    [intros [= <-]; by left|].
  destruct png_info as [| | | | |pl]; try (intros [= <-]; by left).
  destruct (dict_get (w_heap w) pl k_workflow) as [| | | | |wl] eqn:Hwf;
    try (intros [= <-]; by left).
  apply dict_get_dict in Hwf.
  set (h := w_heap w) in *. set (h1 := ensure_dict h wl k_extra).
  assert (Hh1 : forall v, cell h1 wl k_extra = Some v ->
            isinstance_dict v = false -> h1 = h).
  { intros v Hv Hnd. unfold h1 in *.
    destruct (cell h wl k_extra) as [x|] eqn:Hx.
    - by apply (ensure_dict_present _ _ _ x).
    - rewrite cell_ensure_dict, decide_True, Hx in Hv by done.
      cbn in Hv. by injection Hv as <-. }
  destruct (cell h1 wl k_extra) as [ev|] eqn:He.
  2:{ unfold h1 in He. rewrite cell_ensure_dict, decide_True in He by done.
      done. }
  destruct (dict_get_cell _ _ _ _ He) as [-> ->].
  destruct ev as [| | | | |el];
    try (intros [= <-]; left; cbn [w_heap print with_heap];
         by apply (Hh1 _ eq_refl)).
  set (h2 := ensure_dict h1 el k_namespace).
  destruct (cell h2 el k_namespace) as [nv|] eqn:Hn.
  2:{ unfold h2 in Hn. rewrite cell_ensure_dict, decide_True in Hn by done.
      done. }
  destruct (dict_get_cell _ _ _ _ Hn) as [-> ->].
  assert (Hh2 : isinstance_dict nv = false -> h2 = h).
  { intros Hnd. unfold h2 in *.
    destruct (cell h1 el k_namespace) as [x|] eqn:Hx.
    - rewrite (ensure_dict_present _ _ _ x Hx).
      unfold h1 in *.
      destruct (cell h wl k_extra) as [y|] eqn:Hy.
      + by apply (ensure_dict_present _ _ _ y).
      + rewrite cell_ensure_dict, decide_True, Hy in He by done.
        cbn in He. injection He as <-.
        rewrite cell_ensure_dict, decide_False in Hx
          by (intros [_ ?]; by apply k_namespace_extra).
        pose proof (proj2 (cell_new h 1%positive k_namespace)) as Hnone.
        change (cell h (fresh (dom h)) k_namespace = None) in Hnone.
        congruence.
    - rewrite cell_ensure_dict, decide_True, Hx in Hn by done.
      cbn in Hn. by injection Hn as <-. }
  destruct nv as [| | | | |nl];
    try (intros [= <-]; left; cbn [w_heap print with_heap]; by apply Hh2).
  destruct (to_key unique_id) as [k|e] eqn:Hk; [|done].
  intros [= <-]. right. exists k, pl, wl, el, nl.
  repeat split; try done. by intros ->.
Qed.


(** A step that returned returns again when repeated, and leaves the
    dictionaries as the first run left them. *)
Lemma save_metadata_again (unique_id png_info : val) (prompt : str)
    (w w1 w' : world) :
  save_metadata unique_id png_info prompt w = (Ok tt, w1) ->
  w_heap w' = w_heap w1 ->
  exists w2,
    save_metadata unique_id png_info prompt w' = (Ok tt, w2) /\
    w_heap w2 = w_heap w1.
Proof.
  intros Hrun Hw'.
  destruct (save_metadata_cases _ _ _ _ _ Hrun)
    as [Hsame | (k & pl & wl & el & nl & Hid & Hk & -> & Hwf & He & Hn & ->)].
  - destruct (save_metadata_heap_only unique_id png_info prompt w w')
      as [Hfst Hsnd]; [congruence|].
    rewrite Hrun in Hfst, Hsnd. cbn [fst snd] in Hfst, Hsnd.
    exists (snd (save_metadata unique_id png_info prompt w')).
    split; [|done]. by rewrite <- Hfst, <- surjective_pairing.
  - cbn [w_heap with_heap] in Hw'.
    set (h := w_heap w) in *. set (h1 := ensure_dict h wl k_extra) in *.
    set (h2 := ensure_dict h1 el k_namespace) in *.
    set (h3 := dict_store h2 nl k (VStr prompt)) in *.
    cbn [w_heap with_heap].
    assert (Hcell : forall l' k', cell (w_heap w') l' k'
              = if decide (l' = nl /\ k' = k) then Some (VStr prompt)
                else cell h2 l' k').
    { intros l' k'. rewrite Hw'. apply cell_store. }
    destruct (decide (pl = nl /\ k_workflow = k)) as [HA|HA].
    { exists (print SayWorkflowMissing w'). split; [|done].
      apply save_metadata_workflow; [done|].
      pose proof (Hcell pl k_workflow) as Hc. rewrite decide_True in Hc by done.
      by destruct (dict_get_cell _ _ _ _ Hc) as [-> _]. }
    assert (Hwf' : cell (w_heap w') pl k_workflow = Some (VDict wl)).
    { rewrite Hcell, decide_False by done. unfold h2, h1.
      rewrite cell_ensure_dict, decide_False
        by (intros [_ ?]; by apply k_workflow_namespace).
      rewrite cell_ensure_dict, decide_False
        by (intros [_ ?]; by apply k_workflow_extra).
      done. }
    destruct (dict_get_cell _ _ _ _ Hwf') as [Hget _].
    destruct (decide (wl = nl /\ k_extra = k)) as [HB|HB].
    { exists (print SayExtraNotDict w'). split; [|done].
      apply (save_metadata_extra _ pl wl (VStr prompt)); [done..| |done].
      by rewrite Hcell, decide_True. }
    assert (He' : cell (w_heap w') wl k_extra = Some (VDict el)).
    { rewrite Hcell, decide_False by done. unfold h2.
      rewrite cell_ensure_dict, decide_False; [done|].
      intros [_ ?]. by apply k_namespace_extra. }
    destruct (decide (el = nl /\ k_namespace = k)) as [HC|HC].
    { exists (print SayNamespaceNotDict w'). split; [|done].
      apply (save_metadata_namespace _ pl wl el (VStr prompt)); [done..| |done].
      by rewrite Hcell, decide_True. }
    assert (Hn' : cell (w_heap w') el k_namespace = Some (VDict nl)).
    { by rewrite Hcell, decide_False. }
    eexists. split.
    + by apply (save_metadata_on_path _ _ _ k pl wl el nl).
    + cbn [w_heap with_heap]. rewrite Hw'. apply dict_store_twice.
Qed.


(** ** More about execute *)

Section ExecuteMore.
Context {P : PRNG}.

Lemma execute_inv (prompt seed : val) (kwargs : gmap string val)
    (w w1 : world) (p : str) :
  execute prompt seed kwargs w = Some (Ok p, w1) ->
  check_args prompt seed = Ok tt /\
  process_wildcards prompt seed = Some (Ok p) /\
  save_metadata (kwargs_get kwargs "id") (kwargs_get kwargs "png_info") p
    (print (SayResult seed p) w) = (Ok tt, w1).
Proof.
  unfold execute. destruct (check_args prompt seed) as [[]|]; [|done].
  destruct (process_wildcards prompt seed) as [[p'|]|]; [|done..].
  cbv zeta.
  destruct (save_metadata _ _ p' _) as [[[]|] w2] eqn:Hsave; [|done].
  intros [= -> ->]. done.
Qed.

(** X5. With a prompt that is not a string or a seed that is not an
    integer, [execute] raises a [TypeError] before anything else happens:
    nothing is printed and no dictionary is changed, whatever the hidden
    inputs. *)
Theorem execute_invalid_arguments (prompt seed : val)
    (kwargs : gmap string val) (w : world) :
  isinstance_str prompt = false \/ isinstance_int seed = false ->
  exists msg, execute prompt seed kwargs w = Some (Raise (TypeError msg), w).
Proof.
  intros Hbad. destruct (check_args_invalid _ _ Hbad) as [msg Hmsg].
  exists msg. unfold execute. by rewrite Hmsg.
Qed.


(** X7. Running [execute] again with the same arguments, in the world the
    first run left, returns the same prompt and changes no dictionary:
    the levels are there and the entry already holds the prompt. *)
Theorem execute_idempotent (prompt seed : val) (kwargs : gmap string val)
    (w w1 : world) (p : str) :
  execute prompt seed kwargs w = Some (Ok p, w1) ->
  exists w2,
    execute prompt seed kwargs w1 = Some (Ok p, w2) /\
    w_heap w2 = w_heap w1.
Proof.
  intros Hrun. destruct (execute_inv _ _ _ _ _ _ Hrun) as (Hc & Hout & Hsave).
  destruct (save_metadata_again _ _ _ _ _ (print (SayResult seed p) w1)
              Hsave eq_refl) as (w2 & Hsave2 & Hheap).
  exists w2. split; [|done].
  unfold execute. rewrite Hc, Hout. cbv zeta. by rewrite Hsave2.
Qed.



End ExecuteMore.

(** ** More about slicing, splitting and trimming *)

Lemma stride_items_elem {A} (l : list A) (cur step : Z) (n : nat) (x : A) :
  x ∈ stride_items l cur step n -> x ∈ l.
Proof.
  revert cur. induction n as [|n IH]; intros cur Hx; cbn [stride_items] in Hx.
  - by apply elem_of_nil in Hx.
  - destruct (item_at l cur) as [y|] eqn:Hy; [|by eapply IH].
    apply elem_of_cons in Hx as [->|Hx]; [|by eapply IH].
    unfold item_at in Hy. destruct (cur <? 0)%Z; [done|].
    by eapply list_elem_of_lookup_2.
Qed.

Lemma stride_items_nil {A} (cur step : Z) (n : nat) :
  stride_items (@nil A) cur step n = [].
Proof.
  revert cur. induction n as [|n IH]; intros cur; [done|].
  cbn [stride_items]. unfold item_at. rewrite lookup_nil.
  destruct (cur <? 0)%Z; apply IH.
Qed.

(** Whatever a slice returns is made of items of the list. *)
Lemma getslice_elem {A} (l out : list A) (start stop step : Z) (x : A) :
  getslice l start stop step = Ok out -> x ∈ out -> x ∈ l.
Proof.
  unfold getslice. destruct (step =? 0)%Z; [done|].
  intros [= <-]. apply stride_items_elem.
Qed.

Lemma window_unit {A} (l : list A) (start count : nat) :
  window l start 1 count = take count (drop start l).
Proof.
  revert start. induction count as [|count IH]; intros start; [done|].
  cbn [window]. destruct (l !! start) as [x|] eqn:Hx.
  - rewrite IH, (drop_S _ _ _ Hx). cbn. by rewrite Nat.add_1_r.
  - apply lookup_ge_None in Hx. by rewrite drop_ge.
Qed.

Lemma filter_all {A} (f : A -> bool) (l : list A) :
  Forall (fun x => f x = true) l -> List.filter f l = l.
Proof.
  induction 1 as [|x l Hx _ IH]; [done|]. cbn. by rewrite Hx, IH.
Qed.

Lemma lstrip_all_space (s : str) :
  Forall (fun c => is_space c = true) s -> lstrip s = [].
Proof. induction 1 as [|c s Hc _ IH]; [done|]. cbn. by rewrite Hc. Qed.

Lemma lstrip_nil_inv (s : str) :
  lstrip s = [] -> Forall (fun c => is_space c = true) s.
Proof.
  induction s as [|c s IH]; [constructor|]. cbn.
  destruct (is_space c) eqn:Hc; [|done]. intros H. constructor; auto.
Qed.

Lemma lstrip_space_inv (s : str) :
  Forall (fun c => is_space c = true) (lstrip s) ->
  Forall (fun c => is_space c = true) s.
Proof.
  induction s as [|c s IH]; [done|]. cbn.
  destruct (is_space c) eqn:Hc; [|done]. intros H. constructor; auto.
Qed.

(** A text trims to nothing exactly when it is made of whitespace. *)
Lemma strip_nil_iff (s : str) :
  strip s = [] <-> Forall (fun c => is_space c = true) s.
Proof.
  unfold strip, rstrip. split.
  - intros H. apply (f_equal (@rev N)) in H. rewrite rev_involutive in H.
    cbn [rev] in H. apply lstrip_nil_inv, List.Forall_rev in H.
    rewrite rev_involutive in H. by apply lstrip_space_inv.
  - intros H. by rewrite (lstrip_all_space _ H).
Qed.

Lemma split_go_first_absent (a : N) (sep s : str) :
  a ∉ s -> split_go (a :: sep) 0 s = [s].
Proof.
  induction s as [|c s IH]; intros Ha; [done|].
  apply not_elem_of_cons in Ha as [Hne Ha].
  cbn [split_go is_prefix]. destruct (N.eqb_spec a c) as [->|_]; [done|].
  cbn [andb]. by rewrite IH.
Qed.

(** The first segment of a split is a prefix of the text. *)
Lemma split_go_head_prefix (sep s seg : str) (rest : list str) :
  split_go sep 0 s = seg :: rest -> exists t, s = seg ++ t.
Proof.
  revert seg rest. induction s as [|c s IH]; intros seg rest H.
  - injection H as <- <-. by exists [].
  - cbn [split_go] in H. destruct (is_prefix sep (c :: s)).
    + injection H as <- _. by eexists.
    + pose proof (split_go_nonempty sep 0 s) as Hne.
      destruct (split_go sep 0 s) as [|seg' rest'] eqn:Hs; [done|].
      cbn in H. injection H as <- <-.
      destruct (IH _ _ eq_refl) as [t ->]. by exists t.
Qed.

(** No segment of a split holds the separator. *)
Lemma split_go_no_sep_inside (a : N) (sep : str) (skip : nat) (s : str) :
  Forall (fun seg => forall pre post, seg <> pre ++ (a :: sep) ++ post)
    (split_go (a :: sep) skip s).
Proof.
  revert skip. induction s as [|c s IH]; intros skip.
  - constructor; [|constructor]. intros pre post. by destruct pre.
  - cbn [split_go]. destruct skip as [|k]; [|apply IH].
    destruct (is_prefix (a :: sep) (c :: s)) eqn:Hp.
    + constructor; [|apply IH]. intros pre post. by destruct pre.
    + pose proof (split_go_nonempty (a :: sep) 0 s) as Hne.
      specialize (IH 0).
      destruct (split_go (a :: sep) 0 s) as [|seg rest] eqn:Hs; [done|].
      inversion IH as [|? ? Hseg Hrest]; subst. cbn [cons_head].
      constructor; [|done]. intros pre post Heq.
      destruct pre as [|b pre].
      * destruct (split_go_head_prefix _ _ _ _ Hs) as [t ->].
        assert (Htrue : is_prefix (a :: sep) (c :: seg ++ t) = true).
        { change (c :: seg ++ t) with ((c :: seg) ++ t).
          rewrite Heq. cbn [app]. rewrite <- app_assoc.
          apply (is_prefix_app (a :: sep)). }
        congruence.
      * injection Heq as -> Heq. by apply (Hseg pre post).
Qed.

Lemma utf8_encode_char_high (c : N) (bs : list N) :
  (128 <= c)%N -> utf8_encode_char c = Ok bs ->
  Forall (fun b => N.testbit b 7 = true) bs /\ 2 <= length bs.
Proof.
  intros Hc. unfold utf8_encode_char.
  destruct (N.ltb_spec c 128); [lia|].
  destruct (c <? 2048)%N.
  { intros [= <-]. split; [|cbn; lia].
    repeat constructor; by rewrite N.lor_spec. }
  destruct (c <? 65536)%N.
  { destruct ((55296 <=? c) && (c <=? 57343))%N; [done|].
    intros [= <-]. split; [|cbn; lia].
    repeat constructor; by rewrite N.lor_spec. }
  destruct (c <? 1114112)%N; [|done].
  intros [= <-]. split; [|cbn; lia].
  repeat constructor; by rewrite N.lor_spec.
Qed.

(** ** More about the splitter *)

Section SplitterMore.
Context {U : UnicodeNames}.

(** Bytes without a backslash decode to themselves. *)
Lemma escape_decode_plain (bs : list N) :
  backslash ∉ bs -> escape_decode 0 bs = Ok bs.
Proof.
  induction bs as [|b bs IH]; intros Hno; [done|].
  apply not_elem_of_cons in Hno as [Hne Hno].
  cbn [escape_decode]. unfold escape_at.
  destruct (N.eqb_spec b backslash); [congruence|]. cbn [negb].
  by rewrite IH.
Qed.

Lemma segments_decoded (text delimiter sep : str) :
  delimiter <> [] -> unicode_escape_decode delimiter = Ok sep -> sep <> [] ->
  segments text delimiter
  = Ok (List.filter (fun line => truthy (strip line)) (split_go sep 0 text)).
Proof.
  intros Hd Hdec Hsep. unfold segments.
  destruct delimiter; [done|]. rewrite Hdec. by destruct sep.
Qed.

(** X10. The window parameters are not checked: [skip_every = -1] makes
    the stride zero and [run] raises [ValueError], for every text; with
    any other integers, negative ones included, [run] returns a list, and
    every item of it is one of the kept segments. *)
Theorem run_window_errors (text delimiter : str) (arr : list str)
    (start_index skip_every max_count : Z) :
  segments text delimiter = Ok arr ->
  (skip_every = (-1)%Z ->
     run text delimiter start_index skip_every max_count
     = Raise (ValueError "slice step cannot be zero")) /\
  (skip_every <> (-1)%Z ->
     exists out,
       run text delimiter start_index skip_every max_count = Ok out /\
       forall item, item ∈ out -> item ∈ arr).
Proof.
  intros Hseg. unfold run. rewrite Hseg. split.
  - intros ->. reflexivity.
  - intros Hne.
    destruct (getslice arr start_index
                (start_index + max_count * (skip_every + 1))%Z
                (skip_every + 1)%Z) as [out|e] eqn:Hsl.
    + exists out. split; [done|]. intros item. by apply (getslice_elem _ _ _ _ _ _ Hsl).
    + unfold getslice in Hsl.
      destruct (Z.eqb_spec (skip_every + 1) 0); [lia|done].
Qed.

(** X11. With the window wide open ([start_index = 0], [skip_every = 0]
    and [max_count] at least the number of kept segments) [run] returns
    all kept segments; when no segment is blank, joining what [run]
    returns with the decoded delimiter gives the text back. *)
Theorem run_full_window (text delimiter sep : str) (max_count : Z) :
  delimiter <> [] -> unicode_escape_decode delimiter = Ok sep -> sep <> [] ->
  let lines := split_go sep 0 text in
  let kept := List.filter (fun line => truthy (strip line)) lines in
  (Z.of_nat (length kept) <= max_count)%Z ->
  run text delimiter 0 0 max_count = Ok kept /\
  (Forall (fun line => truthy (strip line) = true) lines ->
   run text delimiter 0 0 max_count = Ok lines /\ join sep lines = text).
Proof.
  intros Hd Hdec Hsep lines kept Hmax.
  assert (Hrun : run text delimiter 0 0 max_count = Ok kept).
  { unfold run. rewrite (segments_decoded _ _ _ Hd Hdec Hsep).
    fold lines. fold kept. rewrite getslice_window by lia. f_equal.
    change (S (Z.to_nat 0)) with 1. rewrite window_unit.
    change (Z.to_nat 0) with 0. rewrite drop_0. apply take_ge. lia. }
  split; [done|]. intros Hall.
  assert (kept = lines) as Hk by (by apply filter_all).
  split; [by rewrite Hrun, Hk|].
  apply join_split. by destruct sep.
Qed.

(** X12. A text of whitespace alone (the empty text included) gives the
    empty list with any delimiter that decodes to a non-empty separator,
    but with the empty delimiter it gives a list holding one empty
    string. *)
Theorem run_blank_text (text delimiter sep : str)
    (start_index skip_every max_count : Z) :
  strip text = [] ->
  delimiter <> [] -> unicode_escape_decode delimiter = Ok sep -> sep <> [] ->
  skip_every <> (-1)%Z ->
  run text delimiter start_index skip_every max_count = Ok [] /\
  ((0 <= skip_every)%Z -> (1 <= max_count)%Z ->
   run text [] 0 skip_every max_count = Ok [[]]).
Proof.
  intros Hblank Hd Hdec Hsep Hskip. split.
  - assert (Hkept : List.filter (fun line => truthy (strip line))
                      (split_go sep 0 text) = []).
    { apply strip_nil_iff in Hblank.
      pose proof (split_go_sublist sep 0 text) as Hsub.
      induction Hsub as [|seg segs Hseg _ IH]; [done|].
      cbn [List.filter].
      assert (Hs : strip seg = []).
      { apply strip_nil_iff. rewrite Forall_forall in Hblank |- *.
        intros c Hc. apply Hblank. by apply (sublist_subseteq _ _ Hseg). }
      by rewrite Hs. }
    unfold run. rewrite (segments_decoded _ _ _ Hd Hdec Hsep), Hkept.
    unfold getslice. destruct (Z.eqb_spec (skip_every + 1) 0); [lia|].
    f_equal. apply stride_items_nil.
  - intros Hs Hm. unfold run, segments. rewrite Hblank.
    rewrite getslice_window by lia. f_equal.
    destruct (Z.to_nat max_count) as [|count] eqn:Hc; [lia|].
    cbn [window Z.to_nat]. cbn. by rewrite window_beyond by (cbn; lia).
Qed.

(** X13. A delimiter of ASCII characters without a backslash is its own
    decoding: [run] splits the text on the delimiter as it was given. *)
Theorem run_plain_delimiter (text delimiter : str)
    (start_index skip_every max_count : Z) :
  delimiter <> [] ->
  Forall (fun c => (c < 128)%N /\ c <> backslash) delimiter ->
  (0 <= start_index)%Z -> (0 <= skip_every)%Z -> (0 <= max_count)%Z ->
  unicode_escape_decode delimiter = Ok delimiter /\
  run text delimiter start_index skip_every max_count
  = Ok (window
          (List.filter (fun line => truthy (strip line))
             (split_go delimiter 0 text))
          (Z.to_nat start_index) (S (Z.to_nat skip_every))
          (Z.to_nat max_count)).
Proof.
  intros Hd Hplain Hstart Hskip Hmax.
  pose proof (unicode_escape_plain delimiter Hplain) as Hdec.
  split; [done|]. unfold run.
  rewrite (segments_decoded _ _ _ Hd Hdec Hd). by apply getslice_window.
Qed.

(** X14. A delimiter that is one character beyond ASCII is decoded into
    the bytes of its UTF-8 form, read as characters: a separator of two
    to four characters, none of them the delimiter's own unless it sits
    in the text by chance. A text without the first of these characters
    is not split at all, even where it holds the delimiter. *)
Theorem run_non_ascii_delimiter (c : N) (text : str) (b : N) (bs : list N) :
  (128 <= c)%N -> utf8_encode_char c = Ok (b :: bs) ->
  unicode_escape_decode [c] = Ok (b :: bs) /\
  1 <= length bs /\
  (b ∉ text ->
   segments text [c] = Ok (List.filter (fun line => truthy (strip line)) [text])).
Proof.
  intros Hc Henc.
  destruct (utf8_encode_char_high c _ Hc Henc) as [Hhigh Hlen].
  assert (Hdec : unicode_escape_decode [c] = Ok (b :: bs)).
  { unfold unicode_escape_decode. cbn [utf8_encode]. rewrite Henc.
    rewrite app_nil_r. apply escape_decode_plain.
    intros Hin. rewrite Forall_forall in Hhigh.
    specialize (Hhigh _ Hin). done. }
  split; [done|]. split; [cbn in Hlen; lia|].
  intros Hb. rewrite (segments_decoded text [c] (b :: bs)); [|done..].
  by rewrite (split_go_first_absent b bs text Hb).
Qed.

(** X15. Every item that [run] returns for a delimiter that is not empty
    has a trimmed form that is not empty, is the text with characters
    left out, and does not hold the decoded delimiter. *)
Theorem run_items (text delimiter : str) (out : list str)
    (start_index skip_every max_count : Z) :
  delimiter <> [] ->
  run text delimiter start_index skip_every max_count = Ok out ->
  exists sep,
    unicode_escape_decode delimiter = Ok sep /\ sep <> [] /\
    forall item, item ∈ out ->
      strip item <> [] /\ item `sublist_of` text /\
      forall pre post, item <> pre ++ sep ++ post.
Proof.
  intros Hd Hrun. unfold run in Hrun.
  destruct (segments text delimiter) as [arr|] eqn:Hseg; [|done].
  unfold segments in Hseg. destruct delimiter as [|d delimiter]; [done|].
  destruct (unicode_escape_decode (d :: delimiter)) as [sep|]; [|done].
  destruct sep as [|a sep]; [done|]. cbn [str_split] in Hseg.
  injection Hseg as <-. exists (a :: sep). split; [done|]. split; [done|].
  intros item Hitem. apply (getslice_elem _ _ _ _ _ _ Hrun) in Hitem.
  apply list_elem_of_In, filter_In in Hitem as [Hin Htrue].
  apply list_elem_of_In in Hin. repeat split.
  - by destruct (strip item).
  - pose proof (split_go_sublist (a :: sep) 0 text) as Hall.
    rewrite Forall_forall in Hall. by apply Hall.
  - pose proof (split_go_no_sep_inside a sep 0 text) as Hall.
    rewrite Forall_forall in Hall. by apply Hall.
Qed.

End SplitterMore.

(** The number of items of a window. *)
Lemma window_length_exact {A} (l : list A) (start stride count : nat) :
  1 <= stride ->
  length (window l start stride count)
  = Nat.min count ((length l - start + stride - 1) / stride).
Proof.
  intros Hst. revert start. induction count as [|count IH]; intros start; [done|].
  cbn [window]. destruct (l !! start) as [x|] eqn:Hx.
  - apply lookup_lt_Some in Hx. cbn [length]. rewrite IH.
    assert (Hdiv : (length l - start + stride - 1) / stride
                   = S ((length l - (start + stride) + stride - 1) / stride)).
    { destruct (decide (stride <= length l - start)) as [Hge|Hlt].
      - replace (length l - start + stride - 1)
          with ((length l - (start + stride) + stride - 1) + 1 * stride) by lia.
        rewrite Nat.div_add by lia. lia.
      - replace (length l - (start + stride) + stride - 1) with (stride - 1) by lia.
        rewrite (Nat.div_small (stride - 1)) by lia.
        symmetry. apply (Nat.div_unique _ _ _ (length l - start - 1)); lia. }
    rewrite Hdiv. lia.
  - apply lookup_ge_None in Hx. cbn [length].
    replace (length l - start + stride - 1) with (stride - 1) by lia.
    rewrite Nat.div_small by lia. lia.
Qed.

Section SplitterCount.
Context {U : UnicodeNames}.

(** X16. For window parameters that are not negative, [run] returns
    exactly [min(max_count, ceil((n - start_index) / (skip_every + 1)))]
    items, [n] being the number of kept segments (none when
    [start_index >= n]). *)
Theorem run_count (text delimiter sep : str)
    (start_index skip_every max_count : Z) :
  delimiter <> [] -> unicode_escape_decode delimiter = Ok sep -> sep <> [] ->
  (0 <= start_index)%Z -> (0 <= skip_every)%Z -> (0 <= max_count)%Z ->
  exists out,
    run text delimiter start_index skip_every max_count = Ok out /\
    let n := length (List.filter (fun line => truthy (strip line))
                       (split_go sep 0 text)) in
    length out
    = Nat.min (Z.to_nat max_count)
        ((n - Z.to_nat start_index + Z.to_nat skip_every)
         / S (Z.to_nat skip_every)).
Proof.
  intros Hd Hdec Hsep Hstart Hskip Hmax. eexists. split.
  - unfold run. rewrite (segments_decoded _ _ _ Hd Hdec Hsep).
    by apply getslice_window.
  - cbv zeta. rewrite window_length_exact by lia. do 2 f_equal. lia.
Qed.

End SplitterCount.

(** ** The route *)

Section EndpointFacts.
Context {P : PRNG}.


(** X18. A body that is an object without the field [prompt] makes the
    route raise [KeyError], whatever the seed is; so does a missing
    [seed], even when the prompt given is not a string; a body that is
    not an object raises [TypeError]. Nothing is resolved in these
    cases. *)
Theorem endpoint_missing_field (json_data : val) (h : heap) :
  (forall l, json_data = VDict l ->
     cell h l (KStr (py "prompt")) = None ->
     exists msg, process_stable_wildcards json_data h = Some (Raise (KeyError msg))) /\
  (forall l prompt, json_data = VDict l ->
     cell h l (KStr (py "prompt")) = Some prompt ->
     cell h l (KStr (py "seed")) = None ->
     exists msg, process_stable_wildcards json_data h = Some (Raise (KeyError msg))) /\
  (isinstance_dict json_data = false ->
     exists msg, process_stable_wildcards json_data h = Some (Raise (TypeError msg))).
Proof.
  unfold process_stable_wildcards, subscript, dict_getitem. repeat split.
  - intros l -> Hp. rewrite Hp. by eexists.
  - intros l prompt -> Hp Hs. rewrite Hp, Hs. by eexists.
  - intros Hnd. destruct json_data; try done; by eexists.
Qed.

End EndpointFacts.

(** ** The further properties on the sample inputs *)

Lemma process_wildcards_idempotent_witness :
  ~ has_group (py "a y b") /\
  @process_wildcards lcg (VStr (py "a y b")) (VInt 9) = Some (Ok (py "a y b")).
Proof.
  apply (@process_wildcards_idempotent lcg (VStr (py "a {x|y} b")) (VInt 0)
           (VInt 9) (py "a y b")); reflexivity.
Defined.

Lemma process_wildcards_seed_irrelevant_witness :
  @process_wildcards lcg (VStr (py "a {x} {{y}} b")) (VInt 1)
  = @process_wildcards lcg (VStr (py "a {x} {{y}} b")) (VBool false).
Proof.
  apply (@process_wildcards_seed_irrelevant lcg (py "a {x} {{y}} b")
           (VInt 1) (VBool false)); [|reflexivity..].
  rewrite list_elem_of_In. cbn. intuition discriminate.
Defined.

Lemma process_wildcards_single_group_witness :
  exists o,
    o ∈ split_go [pipe] 0 (py "x|y|z") /\
    @process_wildcards lcg
      (VStr (py "a " ++ (lbrace :: py "x|y|z" ++ [rbrace]) ++ py " b")) (VInt 3)
    = Some (Ok (py "a " ++ o ++ py " b")).
Proof.
  apply (@process_wildcards_single_group lcg (py "a ") (py "x|y|z") (py " b")
           (VInt 3)); try reflexivity; try discriminate;
    repeat constructor.
Defined.

Lemma process_wildcards_sublist_witness :
  py "a y b" `sublist_of` str_of (VStr (py "a {x|y} b")) /\
  length (py "a y b") <= length (str_of (VStr (py "a {x|y} b"))).
Proof.
  apply (@process_wildcards_sublist lcg (VStr (py "a {x|y} b")) (VInt 0)).
  reflexivity.
Defined.

Lemma execute_invalid_arguments_witness :
  exists msg,
    @execute lcg (VInt 3) (VInt 0) (sample_kwargs (VStr (py "7"))) sample_world
    = Some (Raise (TypeError msg), sample_world).
Proof.
  apply (@execute_invalid_arguments lcg). left. reflexivity.
Defined.


Lemma execute_idempotent_witness :
  exists p w1 w2,
    @execute lcg (VStr (py "a {x|y} b")) (VInt 0)
      (sample_kwargs (VStr (py "7"))) sample_world = Some (Ok p, w1) /\
    @execute lcg (VStr (py "a {x|y} b")) (VInt 0)
      (sample_kwargs (VStr (py "7"))) w1 = Some (Ok p, w2) /\
    w_heap w2 = w_heap w1.
Proof.
  assert (Hfirst : exists p w1,
            @execute lcg (VStr (py "a {x|y} b")) (VInt 0)
              (sample_kwargs (VStr (py "7"))) sample_world = Some (Ok p, w1)).
  { eexists _, _. vm_compute. reflexivity. }
  destruct Hfirst as (p & w1 & Hfirst).
  destruct (@execute_idempotent lcg _ _ _ _ _ _ Hfirst) as (w2 & Hsecond & Hheap).
  by exists p, w1, w2.
Defined.



Lemma run_window_errors_witness :
  @run sample_names (py "a,b") (py ",") 0 (-1) 5
  = Raise (ValueError "slice step cannot be zero").
Proof.
  apply (proj1 (@run_window_errors sample_names (py "a,b") (py ",")
                  [py "a"; py "b"] 0 (-1) 5 eq_refl)).
  reflexivity.
Defined.

Lemma run_full_window_witness :
  @run sample_names (py "a,b,c") (py ",") 0 0 10
  = Ok (List.filter (fun line => truthy (strip line))
          (split_go (py ",") 0 (py "a,b,c"))) /\
  (Forall (fun line => truthy (strip line) = true)
     (split_go (py ",") 0 (py "a,b,c")) ->
   @run sample_names (py "a,b,c") (py ",") 0 0 10
   = Ok (split_go (py ",") 0 (py "a,b,c")) /\
   join (py ",") (split_go (py ",") 0 (py "a,b,c")) = py "a,b,c").
Proof.
  apply (@run_full_window sample_names (py "a,b,c") (py ",") (py ",") 10);
    try reflexivity; discriminate.
Defined.

Lemma run_blank_text_witness :
  @run sample_names (py "   ") (py ",") 0 0 10 = Ok [] /\
  ((0 <= 0)%Z -> (1 <= 10)%Z ->
   @run sample_names (py "   ") [] 0 0 10 = Ok [[]]).
Proof.
  apply (@run_blank_text sample_names (py "   ") (py ",") (py ",") 0 0 10);
    try reflexivity; discriminate.
Defined.

Lemma run_plain_delimiter_witness :
  @unicode_escape_decode sample_names (py "; ") = Ok (py "; ") /\
  @run sample_names (py "a; b; ; c") (py "; ") 1 0 5
  = Ok (window
          (List.filter (fun line => truthy (strip line))
             (split_go (py "; ") 0 (py "a; b; ; c")))
          (Z.to_nat 1) (S (Z.to_nat 0)) (Z.to_nat 5)).
Proof.
  apply (@run_plain_delimiter sample_names (py "a; b; ; c") (py "; ") 1 0 5);
    try discriminate.
  repeat constructor; discriminate.
Defined.

(** The delimiter [é] (233) is decoded to the two characters 195 and
    169, so the text [aéb] comes back in one piece. *)
Lemma run_non_ascii_delimiter_witness :
  @unicode_escape_decode sample_names [233%N] = Ok [195%N; 169%N] /\
  1 <= length [169%N] /\
  (195%N ∉ [97%N; 233%N; 98%N] ->
   @segments sample_names [97%N; 233%N; 98%N] [233%N]
   = Ok (List.filter (fun line => truthy (strip line)) [[97%N; 233%N; 98%N]])).
Proof.
  apply (@run_non_ascii_delimiter sample_names 233%N [97%N; 233%N; 98%N]
           195%N [169%N]).
  - discriminate.
  - reflexivity.
Defined.

Lemma run_items_witness :
  exists sep,
    @unicode_escape_decode sample_names (py "\N{COMMA}") = Ok sep /\
    sep <> [] /\
    forall item, item ∈ [py "b"; py "d"] ->
      strip item <> [] /\ item `sublist_of` py "a,b,c,d,e" /\
      forall pre post, item <> pre ++ sep ++ post.
Proof.
  apply (@run_items sample_names (py "a,b,c,d,e") (py "\N{COMMA}")
           [py "b"; py "d"] 1 1 2).
  - discriminate.
  - reflexivity.
Defined.

Lemma run_count_witness :
  exists out,
    @run sample_names (py "a,b,c,d,e") (py ",") 1 1 10 = Ok out /\
    length out
    = Nat.min (Z.to_nat 10)
        ((length (List.filter (fun line => truthy (strip line))
                    (split_go (py ",") 0 (py "a,b,c,d,e")))
          - Z.to_nat 1 + Z.to_nat 1) / S (Z.to_nat 1)).
Proof.
  apply (@run_count sample_names (py "a,b,c,d,e") (py ",") (py ",") 1 1 10);
    try reflexivity; discriminate.
Defined.

